(** * apm-server, package [beater]: the HTTP intake of [server.go]

    A shallow embedding of [src/beater/server.go] and a verification of the
    request pipeline ([processRequest]), the authenticator ([isAuthorized]),
    the decoder ([decodeData]), the status responder ([sendStatus]), the
    health-check route of [newMuxer] and the shutdown sequence ([stop]).

    Conventions
    - a Go [string] is a [string] (a sequence of 8-bit characters), a
      [[]byte] is a [list byte];
    - a Go [error] is a value of type [error]; the [nil] error is [None] of
      [option error];
    - [int] and [int64] values are in [Z];
    - functions of the Go standard library that the file calls are embedded
      next to their callers, from their Go definitions ([strings.Split],
      [strings.Contains], [subtle.ConstantTimeCompare], [io.LimitReader],
      [ioutil.ReadAll], and [Shutdown] and [Close] of [http.Server]); the
      decompressors and the JSON encoder are parameters of the
      development. *)

From Stdlib Require Import ZArith Lia Strings.Ascii Strings.String Strings.Byte.
From stdpp Require Import gmap strings list.
From Equations Require Import Equations.

Local Open Scope Z_scope.

(** ** Go errors *)

(** [io.EOF] is a distinguished error value, compared by identity in
    [ioutil.ReadAll]; every other error is made by [errors.New] (or
    [fmt.Errorf]) and carries its message. *)
Inductive error : Type :=
| io_EOF
| errors_New (msg : string).

Definition Error (e : error) : string :=
  match e with
  | io_EOF => "EOF"
  | errors_New msg => msg
  end.

#[global] Instance error_eq_dec : EqDecision error.
Proof. solve_decision. Defined.

#[global] Instance byte_eq_dec : EqDecision byte := Byte.byte_eq_dec.

Definition errInvalidToken : error := errors_New "invalid token".
Definition errPOSTRequestOnly : error := errors_New "only POST requests are supported".

(** ** package strings *)

Module strings.

(** [HasPrefix s prefix]. *)
Fixpoint HasPrefix (s prefix : string) : bool :=
  match prefix, s with
  | EmptyString, _ => true
  | String _ _, EmptyString => false
  | String p prefix', String c s' =>
      if Ascii.eqb p c then HasPrefix s' prefix' else false
  end.

(** [Contains s substr] is [Index(s, substr) >= 0]: some suffix of [s]
    starts with [substr]. *)
Fixpoint Contains (s substr : string) : bool :=
  if HasPrefix s substr then true
  else match s with
       | EmptyString => false
       | String _ s' => Contains s' substr
       end.

(** [Split s sep] for a non-empty [sep]: the pieces of [s] between the
    leftmost, non-overlapping occurrences of [sep].  [skip] counts the
    characters of an occurrence of [sep] still to be dropped and [cur] is
    the piece being built. *)
Fixpoint Split_from (sep : string) (skip : nat) (cur : string) (s : string)
  : list string :=
  match s with
  | EmptyString => [cur]
  | String c s' =>
      match skip with
      | S k => Split_from sep k cur s'
      | O =>
          if HasPrefix s sep
          then cur :: Split_from sep (String.length sep - 1) EmptyString s'
          else Split_from sep O (cur +:+ String c EmptyString) s'
      end
  end.

Definition Split (s sep : string) : list string :=
  Split_from sep O EmptyString s.

End strings.

(** ** package crypto/subtle *)

Module subtle.

Definition byte_val (b : byte) : Z := Z.of_N (Byte.to_N b).

(** [ConstantTimeByteEq(x, y uint8) int] is
    [int((uint32(x^y) - 1) >> 31)], the subtraction in [uint32]. *)
Definition ConstantTimeByteEq (x y : Z) : Z :=
  Z.shiftr ((Z.lxor x y - 1) mod 2 ^ 32) 31.

(** The loop [for i := 0; i < len(x); i++ { v |= x[i] ^ y[i] }]. *)
Fixpoint accumulate (v : Z) (x y : list byte) : Z :=
  match x, y with
  | a :: x', b :: y' =>
      accumulate (Z.lor v (Z.lxor (byte_val a) (byte_val b))) x' y'
  | _, _ => v
  end.

Definition ConstantTimeCompare (x y : list byte) : Z :=
  if negb (length x =? length y)%nat then 0
  else ConstantTimeByteEq (accumulate 0 x y) 0.

End subtle.

(** ** package net/http: headers and requests *)

(** [http.Header] is a [map[string][]string]; [Get] gives the first value of
    a key, and the empty string when the key is absent.  The keys used by
    this file are already in canonical form. *)
Definition Header_Get (h : gmap string (list string)) (key : string) : string :=
  match h !! key with
  | Some (v :: _) => v
  | _ => ""
  end.

Definition Header_Set (h : gmap string (list string)) (key value : string)
  : gmap string (list string) :=
  <[key := [value]]> h.

(** ** package io: readers *)

Module io.

(** An [io.Reader] is modelled by the sequence of results its successive
    [Read] calls have in store: each segment is a block of bytes that is
    ready, and the error (if any) reported with the last byte of the
    block.  A block longer than the caller's buffer is handed out in
    pieces; [([], Some e)] is a [Read] returning [0, e] and [(c, None)]
    one returning [len(c), nil].  Once the segments are used up the reader
    is at end of file. *)
Definition Reader : Type := list (list byte * option error).

(** [r.Read(p)] with [len(p) = n]: the bytes copied, the error, and the
    reader afterwards. *)
Definition Read (r : Reader) (n : nat) : list byte * option error * Reader :=
  match r with
  | [] => ([], Some io_EOF, [])
  | (c, e) :: r' =>
      if (length c <=? n)%nat then (c, e, r')
      else (take n c, None, (drop n c, e) :: r')
  end.

(** The bytes a reader delivers up to its first error or end of file, and
    the error that ends it ([None] for end of file). *)
Fixpoint contents (r : Reader) : list byte :=
  match r with
  | [] => []
  | (c, None) :: r' => c ++ contents r'
  | (c, Some _) :: _ => c
  end.

Fixpoint failure (r : Reader) : option error :=
  match r with
  | [] => None
  | (_, None) :: r' => failure r'
  | (_, Some e) :: _ => if decide (e = io_EOF) then None else Some e
  end.

(** [type LimitedReader struct { R Reader; N int64 }] *)
Record LimitedReader : Type := { lr_R : Reader; lr_N : Z }.

Definition LimitReader (r : Reader) (n : Z) : LimitedReader :=
  {| lr_R := r; lr_N := n |}.

(** [func (l *LimitedReader) Read(p []byte) (n int, err error)]:
    end of file once [N <= 0]; otherwise [p] is cut to [N] bytes, the
    underlying reader reads, and [N] decreases by the bytes read. *)
Definition LimitedReader_Read (l : LimitedReader) (n : nat)
  : list byte * option error * LimitedReader :=
  if lr_N l <=? 0 then ([], Some io_EOF, l)
  else
    let n' := if Z.of_nat n >? lr_N l then Z.to_nat (lr_N l) else n in
    let '(m, err, r') := Read (lr_R l) n' in
    (m, err, {| lr_R := r'; lr_N := lr_N l - Z.of_nat (length m) |}).

(** What is left in a reader: one unit per byte and per segment. *)
Fixpoint weight (r : Reader) : nat :=
  match r with
  | [] => O
  | (c, _) :: r' => S (length c + weight r')
  end.

End io.

(** ** package io/ioutil *)

Module ioutil.
Import io.

(** [bytes.MinRead]: the least free space of the buffer passed to [Read]. *)
Definition MinRead : nat := 512.

Definition inspect {A : Type} (a : A) : { b : A | a = b } := exist _ a eq_refl.

(** [ioutil.ReadAll(r)], through [bytes.Buffer.ReadFrom]: read until an
    error; [io.EOF] is a normal end, any other error is returned with the
    bytes read so far.
<<
    for {
      make sure the buffer has MinRead bytes free
      m, e := r.Read(the free space of the buffer)
      buf = append(buf, the m bytes read)
      if e == io.EOF { return buf, nil }
      if e != nil    { return buf, e }
    }
>>
    How much the buffer has free beyond [MinRead] when it holds [n] bytes
    depends on how it grows: it is [slack n].  (A buffer that cannot grow
    any more makes [ReadAll] fail with [bytes.ErrTooLarge]; memory is not
    bounded here.) *)
Equations? ReadFrom (slack : nat -> nat) (l : LimitedReader) (buf : list byte)
  : list byte * option error by wf (weight (lr_R l)) lt :=
  ReadFrom slack l buf
    with inspect (LimitedReader_Read l (MinRead + slack (length buf))) => {
      | exist _ (m, Some e, _) _ :=
          if decide (e = io_EOF) then (buf ++ m, None) else (buf ++ m, Some e)
      | exist _ (m, None, l') Hread := ReadFrom slack l' (buf ++ m) }.
Proof.
  (* a read that reports no error consumed a byte or a segment *)
  revert Hread. unfold LimitedReader_Read.
  destruct (lr_N l <=? 0) eqn:HN; [discriminate|].
  apply Z.leb_gt in HN.
  match goal with |- context [Z.of_nat ?k >? lr_N l] =>
    assert (Hn : (0 < k)%nat) by apply Nat.lt_0_succ;
    set (n := k) in *; clearbody n
  end.
  set (n' := if Z.of_nat n >? lr_N l then Z.to_nat (lr_N l) else n).
  assert (Hn' : (0 < n')%nat) by (subst n'; destruct (Z.of_nat n >? lr_N l); lia).
  clearbody n'. unfold Read.
  destruct (lr_R l) as [|[c e] r']; [discriminate|].
  destruct (length c <=? n')%nat eqn:Hc.
  - intros [= <- -> <-]. simpl. lia.
  - intros [= <- <-]. simpl. apply Nat.leb_gt in Hc.
    rewrite length_drop. lia.
Qed.

Definition ReadAll (slack : nat -> nat) (l : LimitedReader)
  : list byte * option error :=
  ReadFrom slack l [].

End ioutil.

(** ** package net/http *)

Module http.

Record Request : Type := {
  Method : string;
  RequestURI : string;
  ContentLength : Z;
  Header : gmap string (list string);
  Body : option io.Reader   (* [None] is the nil body *)
}.

(** The server's [http.ResponseWriter]: the handler's header map, the status
    line and the headers as they went out with the first [WriteHeader], and
    the body written so far. *)
Record ResponseWriter : Type := {
  rw_Header : gmap string (list string);
  rw_wrote : option (Z * gmap string (list string));
  rw_body : list byte
}.

Definition newResponseWriter : ResponseWriter :=
  {| rw_Header := ∅; rw_wrote := None; rw_body := [] |}.

(** [w.Header().Set(key, value)] *)
Definition SetHeader (w : ResponseWriter) (key value : string) : ResponseWriter :=
  {| rw_Header := Header_Set (rw_Header w) key value;
     rw_wrote := rw_wrote w;
     rw_body := rw_body w |}.

(** [w.WriteHeader(code)]: the first call fixes the status and the headers
    sent; a later call changes nothing. *)
Definition WriteHeader (w : ResponseWriter) (code : Z) : ResponseWriter :=
  match rw_wrote w with
  | Some _ => w
  | None =>
      {| rw_Header := rw_Header w;
         rw_wrote := Some (code, rw_Header w);
         rw_body := rw_body w |}
  end.

Definition bodyAllowedForStatus (status : Z) : bool :=
  if (100 <=? status) && (status <=? 199) then false
  else if status =? 204 then false
  else if status =? 304 then false
  else true.

(** [w.Write(buf)]: sends the header with status 200 if none was sent, and
    appends [buf] to the body unless the status admits no body. *)
Definition Write (w : ResponseWriter) (buf : list byte) : ResponseWriter :=
  let w := WriteHeader w 200 in
  match rw_wrote w with
  | Some (status, _) =>
      if bodyAllowedForStatus status
      then {| rw_Header := rw_Header w;
              rw_wrote := rw_wrote w;
              rw_body := rw_body w ++ buf |}
      else w
  | None => w
  end.

(** The status and the [Content-Type] of the response as sent. *)
Definition status (w : ResponseWriter) : option Z := fst <$> rw_wrote w.

Definition sent_Header (w : ResponseWriter) (key : string) : string :=
  match rw_wrote w with
  | Some (_, h) => Header_Get h key
  | None => ""
  end.

(** [ctx, cancel := context.WithTimeout(context.Background(), timeout)]:
    a context whose [Done] channel closes [timeout] nanoseconds after it is
    made, and whose [Err()] is then [context.DeadlineExceeded].  Times are
    in nanoseconds ([time.Duration]), counted from the call of [stop]. *)
Record Context : Type := { Done_at : Z }.

Definition context_WithTimeout (timeout : Z) : Context := {| Done_at := timeout |}.

Definition context_DeadlineExceeded : error :=
  errors_New "context deadline exceeded".

(** An [http.Server] as [Shutdown] and [Close] use it: the listeners it has
    open, each with what closing it answers, and the connections it has
    open, each with the times at which its state is [StateIdle].
    [deadline_first] is what [select] does when the deadline of the context
    and a tick of the poll ticker fall together. *)
Record Server : Type := {
  listeners : list (option error);
  activeConn : list (Z -> bool);
  deadline_first : bool
}.

(** [closeListenersLocked]: every listener is closed and dropped; the first
    error of a close is the result. *)
Fixpoint first_error (answers : list (option error)) : option error :=
  match answers with
  | [] => None
  | Some e :: _ => Some e
  | None :: answers' => first_error answers'
  end.

Definition closeListenersLocked (srv : Server) : option error * Server :=
  (first_error (listeners srv),
   {| listeners := []; activeConn := activeConn srv;
      deadline_first := deadline_first srv |}).

Definition idle (now : Z) (c : Z -> bool) : bool := c now.

(** [closeIdleConns]: the idle connections are closed and dropped; the
    result tells whether no connection was busy. *)
Definition closeIdleConns (srv : Server) (now : Z) : bool * Server :=
  (forallb (idle now) (activeConn srv),
   {| listeners := listeners srv;
      activeConn := List.filter (fun c => negb (idle now c)) (activeConn srv);
      deadline_first := deadline_first srv |}).

(** [shutdownPollInterval = 500 * time.Millisecond] *)
Definition shutdownPollInterval : Z := 500000000.

(** The loop of [Shutdown], entered at time [now]:
<<
    for {
      if srv.closeIdleConns() { return lnerr }
      select {
      case <-ctx.Done(): return ctx.Err()
      case <-ticker.C:
      }
    }
>>
    Only waiting takes time.  The result is the error, the time of the
    return, and the server as it is left. *)
Equations? Shutdown_poll (srv : Server) (lnerr : option error) (ctx : Context)
    (now : Z) : option error * Z * Server
    by wf (Z.to_nat ((Done_at ctx - now) / shutdownPollInterval)) lt :=
  Shutdown_poll srv lnerr ctx now with ioutil.inspect (closeIdleConns srv now) => {
    | exist _ (true, srv') _ := (lnerr, now, srv')
    | exist _ (false, srv') _
        with ioutil.inspect (Done_at ctx <? now + shutdownPollInterval) => {
        | exist _ true _ :=
            (Some context_DeadlineExceeded, Z.max now (Done_at ctx), srv')
        | exist _ false Hlater
            with ioutil.inspect ((Done_at ctx =? now + shutdownPollInterval)
                          && deadline_first srv) => {
            | exist _ true _ :=
                (Some context_DeadlineExceeded, Done_at ctx, srv')
            | exist _ false _ :=
                Shutdown_poll srv' lnerr ctx (now + shutdownPollInterval) } } }.
Proof.
  (* the next tick is not after the deadline: one tick less is left *)
  apply Z.ltb_ge in Hlater.
  replace (Done_at ctx - (now + shutdownPollInterval))
    with (Done_at ctx - now + (-1) * shutdownPollInterval) by lia.
  rewrite Z.div_add by discriminate.
  assert (1 <= (Done_at ctx - now) / shutdownPollInterval).
  { apply Z.div_le_lower_bound; [reflexivity|lia]. }
  lia.
Qed.

(** [srv.Shutdown(ctx)]: the listeners are closed first, then the server
    waits for its connections to become idle, until the context is done. *)
Definition Shutdown (srv : Server) (ctx : Context) : option error * Z * Server :=
  let '(lnerr, srv) := closeListenersLocked srv in
  Shutdown_poll srv lnerr ctx 0.

(** [srv.Close()]: the listeners and all the connections are closed at once;
    the result is the error of closing the listeners. *)
Definition Close (srv : Server) : option error * Server :=
  let '(err, srv) := closeListenersLocked srv in
  (err,
   {| listeners := listeners srv; activeConn := [];
      deadline_first := deadline_first srv |}).

End http.

(** ** package logp *)

Inductive loglevel : Type := LevelDebug | LevelInfo | LevelWarn | LevelErr.

Inductive logarg : Type :=
| ArgString (s : string)
| ArgInt (z : Z).

(** A log call: its level, the debug selector, the format string and the
    arguments. *)
Record logline : Type := {
  lvl : loglevel;
  selector : string;
  format : string;
  args : list logarg
}.

(** ** package beater *)

Section Beater.

Import http.

(** [beat.Event] (libbeat). *)
Context {Event : Type}.

(** [gzip.NewReader] and [zlib.NewReader]: the decompressing reader over a
    body, or the error of a malformed header. *)
Variable gzip_NewReader : io.Reader -> io.Reader + error.
Variable zlib_NewReader : io.Reader -> io.Reader + error.

(** [json.Marshal] on the [map[string]interface{}] of [sendStatus], whose
    values are strings. *)
Variable json_Marshal : gmap string string -> list byte + error.

(** The free space, beyond [bytes.MinRead], of the buffer of
    [ioutil.ReadAll] when it holds [n] bytes. *)
Variable buffer_slack : nat -> nat.

(** Modelled from the spec: the [Processor] interface of package
    [processor], which is not part of [server.go] (section 6:
    [Validate(bytes) -> error|nil], [Transform(bytes) -> (sequence-of-event,
    error|nil)]). *)
Record Processor : Type := {
  Validate : list byte -> option error;
  Transform : list byte -> list Event * option error
}.

(** [type reporter func([]beat.Event) error] *)
Definition reporter : Type := list Event -> option error.

(** Modelled from the spec: the fields of [Config] (declared in another file
    of the package) that the handlers read: the secret token and the maximum
    decompressed request size (section 3, ServerConfig). *)
Record Config : Type := {
  SecretToken : string;
  MaxUnzippedSize : Z
}.

(** Calls to the collaborators, in the order they are made. *)
Inductive call : Type :=
| call_Validate (buf : list byte)
| call_Transform (buf : list byte)
| call_report (events : list Event)
| call_reader_Close
| call_Shutdown (timeout : Z)
| call_Close.

(** The process-wide state: the three monitoring counters, the log, and the
    trace of collaborator calls.  A counter is a [monitoring.Int] of libbeat,
    used only through [Inc], which adds one; its machine width is not part of
    this file and the counters are unbounded here.  The handlers of
    concurrent requests touch this state only by such atomic steps, so a
    run is modelled by its steps in sequence. *)
Record World : Type := {
  requestCounter : Z;
  responseValid : Z;
  responseErrors : Z;
  logged : list logline;
  calls : list call
}.

Definition World0 : World :=
  {| requestCounter := 0; responseValid := 0; responseErrors := 0;
     logged := []; calls := [] |}.

(** Handlers run in the state monad over [World]. *)
Definition M (A : Type) : Type := World -> A * World.

#[local] Instance M_ret : MRet M := fun A a w => (a, w).
#[local] Instance M_bind : MBind M :=
  fun A B f m w => let '(a, w') := m w in f a w'.

Definition modify (f : World -> World) : M unit := fun w => (tt, f w).

Definition requestCounter_Inc : M unit :=
  modify (fun w =>
    {| requestCounter := requestCounter w + 1; responseValid := responseValid w;
       responseErrors := responseErrors w; logged := logged w; calls := calls w |}).

Definition responseValid_Inc : M unit :=
  modify (fun w =>
    {| requestCounter := requestCounter w; responseValid := responseValid w + 1;
       responseErrors := responseErrors w; logged := logged w; calls := calls w |}).

Definition responseErrors_Inc : M unit :=
  modify (fun w =>
    {| requestCounter := requestCounter w; responseValid := responseValid w;
       responseErrors := responseErrors w + 1; logged := logged w; calls := calls w |}).

Definition logp (l : logline) : M unit :=
  modify (fun w =>
    {| requestCounter := requestCounter w; responseValid := responseValid w;
       responseErrors := responseErrors w; logged := logged w ++ [l];
       calls := calls w |}).

Definition logp_Err (fmt : string) (a : list logarg) : M unit :=
  logp {| lvl := LevelErr; selector := ""; format := fmt; args := a |}.
Definition logp_Info (fmt : string) (a : list logarg) : M unit :=
  logp {| lvl := LevelInfo; selector := ""; format := fmt; args := a |}.
Definition logp_Debug (sel fmt : string) (a : list logarg) : M unit :=
  logp {| lvl := LevelDebug; selector := sel; format := fmt; args := a |}.

Definition record (c : call) : M unit :=
  modify (fun w =>
    {| requestCounter := requestCounter w; responseValid := responseValid w;
       responseErrors := responseErrors w; logged := logged w;
       calls := calls w ++ [c] |}).

(** The collaborators, called through the trace. *)
Definition p_Validate (p : Processor) (buf : list byte) : M (option error) :=
  record (call_Validate buf);; mret (Validate p buf).
Definition p_Transform (p : Processor) (buf : list byte)
  : M (list Event * option error) :=
  record (call_Transform buf);; mret (Transform p buf).
Definition do_report (report : reporter) (events : list Event) : M (option error) :=
  record (call_report events);; mret (report events).

(** [defer cleanup] before [body]: [cleanup] runs when [body] returns, and
    the result is that of [body]. *)
Definition defer {A : Type} (cleanup : M unit) (body : M A) : M A :=
  a ← body; cleanup;; mret a.

(** *** [decodeData] *)

Definition decodeData (req : Request) : io.Reader + error :=
  if negb (String.eqb (Header_Get (Header req) "Content-Type") "application/json")
  then inr (errors_New ("invalid content type: "
                        +:+ Header_Get (Header req) "Content-Type"))
  else
    match Body req with
    | None => inr (errors_New "No content supplied")
    | Some reader =>
        let enc := Header_Get (Header req) "Content-Encoding" in
        if String.eqb enc "deflate" then
          match zlib_NewReader reader with
          | inr err => inr err
          | inl reader => inl reader
          end
        else if String.eqb enc "gzip" then
          match gzip_NewReader reader with
          | inr err => inr err
          | inl reader => inl reader
          end
        else inl reader
    end.

(** *** [processRequest] *)

Definition processRequest (r : Request) (p : Processor) (maxSize : Z)
    (report : reporter) : M (Z * option error) :=
  if negb (String.eqb (Method r) "POST") then
    mret (405, Some errPOSTRequestOnly)
  else
    match decodeData r with
    | inr err =>
        mret (400, Some (errors_New ("Decoding error: " +:+ Error err)))
    | inl reader =>
        defer (record call_reader_Close) (
          (* Limit size of request to prevent for example zip bombs *)
          let limitedReader := io.LimitReader reader maxSize in
          let '(buf, err) := ioutil.ReadAll buffer_slack limitedReader in
          match err with
          | Some err =>
              (* If we run out of memory, for example *)
              mret (500, Some (errors_New ("Data read error: " +:+ Error err)))
          | None =>
              err ← p_Validate p buf;
              match err with
              | Some err => mret (400, Some err)
              | None =>
                  '(list, err) ← p_Transform p buf;
                  match err with
                  | Some err => mret (400, Some err)
                  | None =>
                      err ← do_report report list;
                      match err with
                      | Some err => mret (503, Some err)
                      | None => mret (202, None)
                      end
                  end
              end
          end)
    end.

(** *** [isAuthorized] *)

Definition isAuthorized (req : Request) (secretToken : string) : bool :=
  (* No token configured *)
  if String.eqb secretToken "" then true
  else
    let header := Header_Get (Header req) "Authorization" in
    let parts := strings.Split header " " in
    if negb (length parts =? 2)%nat
       || negb (String.eqb (nth 0 parts "") "Bearer")
    then false
    else
      subtle.ConstantTimeCompare (list_byte_of_string (nth 1 parts ""))
                                 (list_byte_of_string secretToken) =? 1.

(** *** [acceptsJSON], [sendStatus], [sendJSON], [sendPlain] *)

Definition acceptsJSON (r : Request) : bool :=
  let h := Header_Get (Header r) "Accept" in
  strings.Contains h "*/*" || strings.Contains h "application/json".

Definition sendJSON (w : ResponseWriter) (msg : gmap string string)
  : M ResponseWriter :=
  match json_Marshal msg with
  | inr err =>
      logp_Err "Error while generating a JSON error response: %v"
               [ArgString (Error err)];;
      mret w
  | inl buf => mret (Write w buf)
  end.

Definition sendPlain (w : ResponseWriter) (msg : string) : M ResponseWriter :=
  mret (Write w (list_byte_of_string msg)).

Definition sendStatus (w : ResponseWriter) (r : Request) (code : Z)
    (err : option error) : M ResponseWriter :=
  let content_type :=
    if acceptsJSON r then "application/json" else "text/plain; charset=utf-8" in
  let w := SetHeader w "Content-Type" content_type in
  let w := WriteHeader w code in
  match err with
  | None =>
      responseValid_Inc;;
      logp_Debug "request" "request successful, code=%d" [ArgInt code];;
      mret w
  | Some err =>
      logp_Err "%s, code=%d" [ArgString (Error err); ArgInt code];;
      responseErrors_Inc;;
      if acceptsJSON r
      then sendJSON w {[ "error" := Error err ]}
      else sendPlain w (Error err)
  end.

(** *** The handlers *)

Definition Handler : Type := ResponseWriter -> Request -> M ResponseWriter.

Definition logHandler (h : Handler) : Handler :=
  fun w r =>
    logp_Debug "handler" "Request: URI=%s, method=%s, content-length=%d"
      [ArgString (RequestURI r); ArgString (Method r); ArgInt (ContentLength r)];;
    requestCounter_Inc;;
    h w r.

Definition authHandler (secretToken : string) (h : Handler) : Handler :=
  fun w r =>
    if negb (isAuthorized r secretToken)
    then sendStatus w r 401 (Some errInvalidToken)
    else h w r.

Definition appHandler (p : Processor) (config : Config) (report : reporter)
  : Handler :=
  fun w r =>
    '(code, err) ← processRequest r p (MaxUnzippedSize config) report;
    sendStatus w r code err.

Definition healthcheck : Handler :=
  fun w r =>
    requestCounter_Inc;;
    let w := WriteHeader w 200 in
    responseValid_Inc;;
    mret w.

(** *** [newMuxer] *)

(** [mux.Handle(pattern, handler)] panics ([None]) on an empty pattern and on
    a pattern that is already registered.  (The redirect that [Handle] adds
    next to a pattern ending in a slash is left out: a later registration
    replaces it.) *)
Definition Handle (mux : gmap string Handler) (pattern : string) (h : Handler)
  : option (gmap string Handler) :=
  if String.eqb pattern "" then None
  else match mux !! pattern with
       | Some _ => None
       | None => Some (<[pattern := h]> mux)
       end.

(** The loop over [processor.Registry.Processors()]. *)
Fixpoint addProcessors (config : Config) (report : reporter)
    (routes : list (string * Processor)) (mux : gmap string Handler)
  : M (option (gmap string Handler)) :=
  match routes with
  | [] => mret (Some mux)
  | (path, p) :: routes' =>
      let handler := appHandler p config report in
      logp_Info "Path %s added to request handler" [ArgString path];;
      match Handle mux path (logHandler (authHandler (SecretToken config) handler)) with
      | None => mret None
      | Some mux' => addProcessors config report routes' mux'
      end
  end.

(** [Processors] is the map that [processor.Registry.Processors()] returns
    (the registry itself lives in package [processor]). *)
Definition newMuxer (Processors : gmap string Processor) (config : Config)
    (report : reporter) : M (option (gmap string Handler)) :=
  mux ← addProcessors config report (map_to_list Processors) ∅;
  match mux with
  | None => mret None
  | Some mux => mret (Handle mux "/healthcheck" healthcheck)
  end.

(** *** [stop] *)

(** [stop] has no result; what a run of it leaves is the server, which it
    changes through [Shutdown] and [Close], and the time that has passed
    when it returns. *)
Definition stop (server : Server) (timeout : Z) : M (Server * Z) :=
  (* the deferred cancel() only releases the context *)
  let ctx := context_WithTimeout timeout in
  record (call_Shutdown timeout);;
  let '(err, elapsed, server) := Shutdown server ctx in
  match err with
  | Some err =>
      logp_Err (Error err) [];;
      record call_Close;;
      let '(err, server) := Close server in
      match err with
      | Some err => logp_Err (Error err) [];; mret (server, elapsed)
      | None => mret (server, elapsed)
      end
  | None => mret (server, elapsed)
  end.


(** *** The server's use of a handler *)

(** [net/http] gives every request a response writer of its own; the
    requests of [rs] are served one after the other. *)
Fixpoint serveAll (h : Handler) (rs : list Request) : M (list ResponseWriter) :=
  match rs with
  | [] => mret []
  | r :: rs' =>
      w ← h newResponseWriter r;
      ws ← serveAll h rs';
      mret (w :: ws)
  end.

(** *** Sample data *)

(** Stand-ins for the library parameters: a decompressor that hands the body
    through, and an encoder that writes the "error" field of the object
    without escapes. *)
Definition plain_NewReader (r : io.Reader) : io.Reader + error := inl r.

Definition noSlack (n : nat) : nat := O.

Definition quote : string := String (ascii_of_nat 34) EmptyString.

Definition plain_Marshal (msg : gmap string string) : list byte + error :=
  inl (list_byte_of_string
         ("{" +:+ quote +:+ "error" +:+ quote +:+ ":" +:+ quote
          +:+ default EmptyString (msg !! "error") +:+ quote +:+ "}")).

(** A body of the five bytes "abcde", ready in one block. *)
Definition sampleBody : io.Reader := [(list_byte_of_string "abcde", None)].

Definition postRequest : Request :=
  {| Method := "POST"; RequestURI := "/v1/errors"; ContentLength := 5;
     Header := {[ "Content-Type" := ["application/json"] ]};
     Body := Some sampleBody |}.

Definition gzipRequest : Request :=
  {| Method := "POST"; RequestURI := "/v1/errors"; ContentLength := 5;
     Header := {[ "Content-Type" := ["application/json"];
                  "Content-Encoding" := ["gzip"] ]};
     Body := Some sampleBody |}.

Definition getRequest : Request :=
  {| Method := "GET"; RequestURI := "/v1/errors"; ContentLength := 0;
     Header := {[ "Accept" := ["application/json"] ]};
     Body := None |}.

Definition bearerRequest (token : string) : Request :=
  {| Method := "POST"; RequestURI := "/v1/errors"; ContentLength := 5;
     Header := {[ "Content-Type" := ["application/json"];
                  "Authorization" := ["Bearer " +:+ token] ]};
     Body := Some sampleBody |}.

Definition acceptAll : Processor :=
  {| Validate := fun _ => None; Transform := fun _ => ([], None) |}.

Definition rejectAll : Processor :=
  {| Validate := fun _ => Some (errors_New "invalid payload");
     Transform := fun _ => ([], None) |}.

Definition okReport : reporter := fun _ => None.

Definition sampleConfig : Config :=
  {| SecretToken := "secret"; MaxUnzippedSize := 3 |}.

Definition openConfig : Config :=
  {| SecretToken := EmptyString; MaxUnzippedSize := 3 |}.

(** A server with one listener and two connections: one is idle after
    0.7 s and the other stays busy.  And a server whose only connection is
    idle after 0.7 s. *)
Definition idle_from (t : Z) : Z -> bool := fun now => t <=? now.
Definition busy : Z -> bool := fun _ => false.

Definition busyServer : Server :=
  {| listeners := [None];
     activeConn := [idle_from 700000000; busy];
     deadline_first := true |}.

Definition quietServer : Server :=
  {| listeners := [None];
     activeConn := [idle_from 700000000];
     deadline_first := true |}.

(** The busy server again, with a listener whose close fails. *)
Definition brokenServer : Server :=
  {| listeners := [Some (errors_New "close tcp 0.0.0.0:8200: bad file descriptor")];
     activeConn := [idle_from 700000000; busy];
     deadline_first := false |}.


(** A body that breaks after two bytes, a POST with it, a POST with a wrong
    content type, and an encoder that fails. *)
Definition brokenBody : io.Reader :=
  [(list_byte_of_string "ab", Some (errors_New "unexpected EOF"))].

Definition brokenRequest : Request :=
  {| Method := "POST"; RequestURI := "/v1/errors"; ContentLength := 5;
     Header := {[ "Content-Type" := ["application/json"] ]};
     Body := Some brokenBody |}.

Definition textRequest : Request :=
  {| Method := "POST"; RequestURI := "/v1/errors"; ContentLength := 5;
     Header := {[ "Content-Type" := ["text/plain"] ]};
     Body := Some sampleBody |}.


(** * Verification *)

(** ** Facts about package strings *)

#[local] Arguments String.append : simpl nomatch.

Lemma append_cons (c : ascii) (s t : string) :
  String c s +:+ t = String c (s +:+ t).
Proof. reflexivity. Qed.

Lemma append_empty_r (s : string) : s +:+ "" = s.
Proof.
  induction s as [|c s IH]; [reflexivity | now rewrite append_cons, IH].
Qed.

Lemma append_assoc (s t u : string) : (s +:+ t) +:+ u = s +:+ (t +:+ u).
Proof.
  induction s as [|c s IH]; [reflexivity | now rewrite !append_cons, IH].
Qed.

Lemma HasPrefix_empty (s : string) : strings.HasPrefix s "" = true.
Proof. destruct s; reflexivity. Qed.

Lemma HasPrefix_iff (s p : string) :
  strings.HasPrefix s p = true <-> exists t, s = p +:+ t.
Proof.
  revert s. induction p as [|a p IH]; intros s.
  - rewrite HasPrefix_empty. split; [intros _; now exists s | reflexivity].
  - destruct s as [|c s]; simpl.
    + split; [discriminate | intros [t Ht]; discriminate].
    + destruct (Ascii.eqb_spec a c) as [->|Hne].
      * rewrite IH. split; intros [t Ht]; exists t; congruence.
      * split; [discriminate | intros [t Ht]; congruence].
Qed.

Lemma Contains_unfold (s substr : string) :
  strings.Contains s substr
  = if strings.HasPrefix s substr then true
    else match s with
         | EmptyString => false
         | String _ s' => strings.Contains s' substr
         end.
Proof. destruct s; reflexivity. Qed.

(** [Contains] finds exactly the strings with [substr] somewhere inside. *)
Lemma Contains_iff (s substr : string) :
  strings.Contains s substr = true <->
  exists pre post, s = pre +:+ substr +:+ post.
Proof.
  induction s as [|c s IH]; rewrite Contains_unfold.
  - destruct (strings.HasPrefix "" substr) eqn:Hp.
    + split; [intros _ | reflexivity].
      apply HasPrefix_iff in Hp as [t Ht]. exists "", t. exact Ht.
    + split; [discriminate|]. intros (pre & post & Heq).
      destruct pre; [|discriminate]. simpl in Heq.
      assert (strings.HasPrefix "" substr = true) by (apply HasPrefix_iff; eauto).
      congruence.
  - destruct (strings.HasPrefix (String c s) substr) eqn:Hp.
    + split; [intros _ | reflexivity].
      apply HasPrefix_iff in Hp as [t Ht]. exists "", t. exact Ht.
    + rewrite IH. split.
      * intros (pre & post & ->). now exists (String c pre), post.
      * intros (pre & post & Heq). destruct pre as [|a pre]; simpl in Heq.
        -- assert (strings.HasPrefix (String c s) substr = true)
             by (apply HasPrefix_iff; eauto).
           congruence.
        -- injection Heq as -> ->. now exists pre, post.
Qed.

Lemma Contains_space_cons (c : ascii) (s : string) :
  strings.Contains (String c s) " " = Ascii.eqb " " c || strings.Contains s " ".
Proof.
  rewrite Contains_unfold. cbn [strings.HasPrefix].
  destruct (Ascii.eqb " " c); [now rewrite HasPrefix_empty | reflexivity].
Qed.

Lemma Split_from_nonempty (sep : string) (k : nat) (cur s : string) :
  (1 <= length (strings.Split_from sep k cur s))%nat.
Proof.
  revert k cur.
  induction s as [|c s IH]; intros k cur; cbn [strings.Split_from length]; [lia|].
  destruct k; [|apply IH].
  destruct (strings.HasPrefix (String c s) sep); [cbn [length]; lia | apply IH].
Qed.

(** A string without a space is a single piece. *)
Lemma Split_no_space (cur s : string) :
  strings.Contains s " " = false ->
  strings.Split_from " " 0 cur s = [cur +:+ s].
Proof.
  revert cur. induction s as [|c s IH]; intros cur Hs.
  - simpl. now rewrite append_empty_r.
  - rewrite Contains_space_cons in Hs. apply orb_false_iff in Hs as [Hc Hs].
    cbn [strings.Split_from strings.HasPrefix]. rewrite Hc.
    rewrite IH by exact Hs. now rewrite append_assoc.
Qed.

(** Up to its first space a string is the first piece. *)
Lemma Split_first_space (cur a t : string) :
  strings.Contains a " " = false ->
  strings.Split_from " " 0 cur (a +:+ String " " t)
  = (cur +:+ a) :: strings.Split_from " " 0 "" t.
Proof.
  revert cur. induction a as [|c a IH]; intros cur Ha.
  - cbn. now rewrite HasPrefix_empty, append_empty_r.
  - rewrite Contains_space_cons in Ha. apply orb_false_iff in Ha as [Hc Ha].
    cbn [append strings.Split_from strings.HasPrefix]. rewrite Hc.
    rewrite IH by exact Ha. now rewrite append_assoc.
Qed.

(** A string with a space has at least two pieces. *)
Lemma Split_with_space (cur s : string) :
  strings.Contains s " " = true ->
  (2 <= length (strings.Split_from " " 0 cur s))%nat.
Proof.
  revert cur. induction s as [|c s IH]; intros cur Hs; [discriminate|].
  rewrite Contains_space_cons in Hs.
  cbn [strings.Split_from strings.HasPrefix].
  destruct (Ascii.eqb " " c).
  - rewrite HasPrefix_empty. cbn [length].
    pose proof (Split_from_nonempty " " (String.length " " - 1) "" s). lia.
  - apply IH. exact Hs.
Qed.

Lemma Contains_space_app (a t : string) :
  strings.Contains (a +:+ String " " t) " " = true.
Proof. apply Contains_iff. exists a, t. reflexivity. Qed.

(** The text before the first space. *)
Lemma first_space (s : string) :
  strings.Contains s " " = true ->
  exists a t, s = a +:+ String " " t /\ strings.Contains a " " = false.
Proof.
  induction s as [|c s IH]; intros Hs; [discriminate|].
  rewrite Contains_space_cons in Hs.
  destruct (Ascii.eqb_spec " " c) as [<-|Hne].
  - exists "", s. split; reflexivity.
  - destruct (IH Hs) as (a & t & -> & Ha).
    exists (String c a), t. split; [reflexivity|].
    rewrite Contains_space_cons, Ha.
    destruct (Ascii.eqb_spec " " c); [contradiction | reflexivity].
Qed.

(** ** Facts about package crypto/subtle *)

Lemma byte_val_range (x : byte) : 0 <= subtle.byte_val x < 2 ^ 8.
Proof.
  unfold subtle.byte_val. pose proof (Byte.to_N_bounded x).
  change (2 ^ 8) with 256. lia.
Qed.

Lemma byte_val_inj (x y : byte) : subtle.byte_val x = subtle.byte_val y -> x = y.
Proof.
  unfold subtle.byte_val. intros H. apply N2Z.inj in H.
  assert (Hx := Byte.of_to_N x). rewrite H, Byte.of_to_N in Hx. congruence.
Qed.

Lemma log2_below (n a : Z) : 0 < n -> 0 <= a < 2 ^ n -> Z.log2 a < n.
Proof.
  intros Hn Ha. destruct (Z.eq_dec a 0) as [->|Hnz]; [exact Hn|].
  apply Z.log2_lt_pow2; lia.
Qed.

Lemma below_log2 (n a : Z) : 0 <= a -> Z.log2 a < n -> a < 2 ^ n.
Proof.
  intros Ha Hl. destruct (Z.eq_dec a 0) as [->|Hnz].
  - apply Z.pow_pos_nonneg; [lia|]. pose proof (Z.log2_nonneg 0). lia.
  - apply Z.log2_lt_pow2; lia.
Qed.

Lemma lor_range (n a c : Z) :
  0 < n -> 0 <= a < 2 ^ n -> 0 <= c < 2 ^ n -> 0 <= Z.lor a c < 2 ^ n.
Proof.
  intros Hn Ha Hc.
  assert (H0 : 0 <= Z.lor a c) by (apply Z.lor_nonneg; lia).
  split; [exact H0|]. apply below_log2; [exact H0|].
  rewrite Z.log2_lor by lia.
  apply Z.max_lub_lt; apply log2_below; assumption.
Qed.

Lemma lxor_range (n a c : Z) :
  0 < n -> 0 <= a < 2 ^ n -> 0 <= c < 2 ^ n -> 0 <= Z.lxor a c < 2 ^ n.
Proof.
  intros Hn Ha Hc.
  assert (H0 : 0 <= Z.lxor a c) by (apply Z.lxor_nonneg; lia).
  split; [exact H0|]. apply below_log2; [exact H0|].
  eapply Z.le_lt_trans; [apply Z.log2_lxor; lia|].
  apply Z.max_lub_lt; apply log2_below; assumption.
Qed.

Lemma accumulate_range (v : Z) (x y : list byte) :
  0 <= v < 2 ^ 8 -> 0 <= subtle.accumulate v x y < 2 ^ 8.
Proof.
  revert v y. induction x as [|a x IH]; intros v y Hv; [exact Hv|].
  destruct y as [|c y]; [exact Hv|]. cbn [subtle.accumulate].
  apply IH. apply lor_range; [lia | exact Hv |].
  apply lxor_range; [lia | apply byte_val_range..].
Qed.

(** The accumulator stays zero exactly when the two slices agree. *)
Lemma accumulate_zero (v : Z) (x y : list byte) :
  length x = length y ->
  subtle.accumulate v x y = 0 <-> v = 0 /\ x = y.
Proof.
  revert v y. induction x as [|a x IH]; intros v [|c y] Hlen;
    try discriminate; cbn [subtle.accumulate].
  - tauto.
  - injection Hlen as Hlen. rewrite (IH _ _ Hlen), Z.lor_eq_0_iff, Z.lxor_eq_0_iff.
    split.
    + intros [[-> Hac] ->]. apply byte_val_inj in Hac. now subst.
    + intros [-> [= -> ->]]. auto.
Qed.

Lemma ConstantTimeByteEq_zero (v : Z) :
  0 <= v < 2 ^ 8 ->
  subtle.ConstantTimeByteEq v 0 = if decide (v = 0) then 1 else 0.
Proof.
  intros Hv. unfold subtle.ConstantTimeByteEq. rewrite Z.lxor_0_r.
  destruct (decide (v = 0)) as [->|Hnz]; [reflexivity|].
  change (2 ^ 8) with 256 in Hv.
  rewrite Z.mod_small by (change (2 ^ 32) with 4294967296; lia).
  rewrite Z.shiftr_div_pow2 by lia.
  apply Z.div_small. change (2 ^ 31) with 2147483648. lia.
Qed.

(** [ConstantTimeCompare] answers 1 on equal slices and 0 otherwise. *)
Lemma ConstantTimeCompare_spec (x y : list byte) :
  subtle.ConstantTimeCompare x y = if decide (x = y) then 1 else 0.
Proof.
  unfold subtle.ConstantTimeCompare.
  destruct (length x =? length y)%nat eqn:Hlen; cbn [negb].
  - apply Nat.eqb_eq in Hlen.
    rewrite ConstantTimeByteEq_zero by (apply accumulate_range; lia).
    pose proof (accumulate_zero 0 x y Hlen) as Hz.
    destruct (decide (subtle.accumulate 0 x y = 0)) as [H0|H0];
      destruct (decide (x = y)) as [Hxy|Hxy]; try reflexivity.
    + apply Hz in H0. tauto.
    + exfalso. apply H0, Hz. auto.
  - apply Nat.eqb_neq in Hlen.
    destruct (decide (x = y)) as [->|]; [contradiction | reflexivity].
Qed.

Lemma list_byte_of_string_inj (s t : string) :
  list_byte_of_string s = list_byte_of_string t -> s = t.
Proof.
  intros H. rewrite <- (string_of_list_byte_of_string s),
    <- (string_of_list_byte_of_string t). now rewrite H.
Qed.

(** ** Facts about the readers *)

(** One [Read] through a limit that is not used up: it returns at most [N]
    bytes and takes them off [N]; with no error the bytes returned are the
    next bytes of the stream, and with an error they are all that was left
    of it. *)
Lemma LimitedReader_Read_step (l : io.LimitedReader) (k : nat) :
  (0 < k)%nat -> 0 < io.lr_N l ->
  let '(m, e, l') := io.LimitedReader_Read l k in
  Z.of_nat (length m) <= io.lr_N l /\
  io.lr_N l' = io.lr_N l - Z.of_nat (length m) /\
  match e with
  | None =>
      io.contents (io.lr_R l) = m ++ io.contents (io.lr_R l')
      /\ io.failure (io.lr_R l) = io.failure (io.lr_R l')
  | Some e =>
      io.contents (io.lr_R l) = m
      /\ io.failure (io.lr_R l) = if decide (e = io_EOF) then None else Some e
  end.
Proof.
  intros Hk HN. unfold io.LimitedReader_Read.
  destruct (io.lr_N l <=? 0) eqn:H0; [apply Z.leb_le in H0; lia|].
  set (k' := if Z.of_nat k >? io.lr_N l then Z.to_nat (io.lr_N l) else k).
  assert (Hk' : (0 < k')%nat /\ Z.of_nat k' <= io.lr_N l).
  { subst k'. destruct (Z.of_nat k >? io.lr_N l) eqn:Hgt; [lia|].
    pose proof (Zgt_cases (Z.of_nat k) (io.lr_N l)) as Hc.
    rewrite Hgt in Hc. lia. }
  clearbody k'. unfold io.Read.
  destruct (io.lr_R l) as [|[c e] r'];
    cbn [length io.lr_N io.lr_R io.contents io.failure].
  - split; [lia|]. split; [lia|]. split; reflexivity.
  - destruct (length c <=? k')%nat eqn:Hc; cbn [io.lr_N io.lr_R].
    + apply Nat.leb_le in Hc. split; [lia|]. split; [reflexivity|].
      destruct e; split; reflexivity.
    + apply Nat.leb_gt in Hc. rewrite length_take. split; [lia|].
      split; [reflexivity|]. cbn [io.contents io.failure].
      destruct e; [|rewrite app_assoc]; now rewrite take_drop.
Qed.

(** Once the limit is used up the reader is at end of file. *)
Lemma LimitedReader_Read_done (l : io.LimitedReader) (k : nat) :
  io.lr_N l <= 0 -> io.LimitedReader_Read l k = ([], Some io_EOF, l).
Proof.
  intros HN. unfold io.LimitedReader_Read.
  destruct (io.lr_N l <=? 0) eqn:H0; [reflexivity|].
  apply Z.leb_gt in H0. lia.
Qed.

(** Reading a stream that is longer than the limit: the loop ends without
    an error, with the first [N] bytes of the stream. *)
Lemma ReadFrom_over (slack : nat -> nat) (l : io.LimitedReader) (buf : list byte) :
  io.lr_N l < Z.of_nat (length (io.contents (io.lr_R l))) ->
  ioutil.ReadFrom slack l buf
  = (buf ++ take (Z.to_nat (io.lr_N l)) (io.contents (io.lr_R l)), None).
Proof.
  funelim (ioutil.ReadFrom slack l buf); intros Hover;
    repeat match goal with H : @eq (sigma _) _ _ |- _ => clear H end.
  - (* the read reported an error *)
    destruct (Z_le_gt_dec (io.lr_N l) 0) as [HN|HN].
    + match goal with H : io.LimitedReader_Read _ _ = _ |- _ =>
        rewrite LimitedReader_Read_done in H by exact HN;
        injection H as <- <- <- end.
      replace (Z.to_nat (io.lr_N l)) with 0%nat by lia.
      rewrite take_0. destruct (decide (io_EOF = io_EOF)); [reflexivity|congruence].
    + pose proof (LimitedReader_Read_step l (ioutil.MinRead + slack (length buf))) as Hs.
      match goal with H : io.LimitedReader_Read _ _ = _ |- _ => rewrite H in Hs end.
      destruct Hs as (Hle & _ & Hc & _); [unfold ioutil.MinRead; lia | lia |].
      rewrite Hc in Hover. lia.
  - (* the read reported no error: the loop goes on *)
    destruct (Z_le_gt_dec (io.lr_N l) 0) as [HN|HN].
    + match goal with H : io.LimitedReader_Read _ _ = _ |- _ =>
        rewrite LimitedReader_Read_done in H by exact HN; discriminate H end.
    + pose proof (LimitedReader_Read_step l (ioutil.MinRead + slack (length buf))) as Hs.
      match goal with H : io.LimitedReader_Read _ _ = _ |- _ => rewrite H in Hs end.
      destruct Hs as (Hle & HN' & Hc & _); [unfold ioutil.MinRead; lia | lia |].
      rewrite Hc in Hover |- *. rewrite length_app in Hover.
      match goal with IH : _ -> ioutil.ReadFrom _ _ _ = _ |- _ => rewrite IH by lia end.
      rewrite HN', <- app_assoc. f_equal. f_equal.
      rewrite take_app, (take_ge m) by lia. f_equal. f_equal. lia.
Qed.

(** Reading a stream that is shorter than the limit: all of it, with the
    error that ends it. *)
Lemma ReadFrom_under (slack : nat -> nat) (l : io.LimitedReader) (buf : list byte) :
  Z.of_nat (length (io.contents (io.lr_R l))) < io.lr_N l ->
  ioutil.ReadFrom slack l buf
  = (buf ++ io.contents (io.lr_R l), io.failure (io.lr_R l)).
Proof.
  funelim (ioutil.ReadFrom slack l buf); intros Hunder;
    repeat match goal with H : @eq (sigma _) _ _ |- _ => clear H end.
  all: pose proof (LimitedReader_Read_step l (ioutil.MinRead + slack (length buf))) as Hs.
  all: match goal with H : io.LimitedReader_Read _ _ = _ |- _ => rewrite H in Hs end.
  - destruct Hs as (_ & _ & -> & ->); [unfold ioutil.MinRead; lia | lia |].
    destruct (decide (e = io_EOF)); reflexivity.
  - destruct Hs as (Hle & HN' & Hc & Hf); [unfold ioutil.MinRead; lia | lia |].
    rewrite Hc in Hunder |- *. rewrite length_app in Hunder.
    match goal with IH : _ -> ioutil.ReadFrom _ _ _ = _ |- _ => rewrite IH by lia end.
    now rewrite Hf, <- app_assoc.
Qed.

Lemma ReadAll_under (slack : nat -> nat) (r : io.Reader) (n : Z) :
  Z.of_nat (length (io.contents r)) < n ->
  ioutil.ReadAll slack (io.LimitReader r n) = (io.contents r, io.failure r).
Proof. intros H. unfold ioutil.ReadAll. now rewrite ReadFrom_under. Qed.

Lemma ReadAll_over (slack : nat -> nat) (r : io.Reader) (n : Z) :
  n < Z.of_nat (length (io.contents r)) ->
  ioutil.ReadAll slack (io.LimitReader r n)
  = (take (Z.to_nat n) (io.contents r), None).
Proof. intros H. unfold ioutil.ReadAll. now rewrite ReadFrom_over. Qed.

(** ** The request pipeline *)

Ltac run :=
  cbv [mbind mret M_bind M_ret modify record logp logp_Err logp_Info logp_Debug
       p_Validate p_Transform do_report defer
       requestCounter_Inc responseValid_Inc responseErrors_Inc];
  cbn [fst snd calls logged requestCounter responseValid responseErrors].

Lemma eqb_POST (r : http.Request) :
  http.Method r = "POST" -> String.eqb (http.Method r) "POST" = true.
Proof. intros ->. reflexivity. Qed.

(** The outcomes of [processRequest]: success with no error, or one of four
    failure statuses with an error.  The outcome does not depend on the
    process-wide state. *)
Lemma processRequest_cases (r : http.Request) (p : Processor) (maxSize : Z)
    (report : reporter) (w : World) :
  fst (processRequest r p maxSize report w) = (202, None)
  \/ exists code e,
       fst (processRequest r p maxSize report w) = (code, Some e)
       /\ In code [400; 405; 500; 503].
Proof.
  unfold processRequest.
  destruct (negb (String.eqb (http.Method r) "POST")).
  { right. eexists _, _. split; [reflexivity | simpl; tauto]. }
  destruct (decodeData r) as [reader|e].
  2: { right. eexists _, _. split; [reflexivity | simpl; tauto]. }
  destruct (ioutil.ReadAll buffer_slack (io.LimitReader reader maxSize)) as [buf [e|]].
  { right. eexists _, _. split; [reflexivity | simpl; tauto]. }
  run. destruct (Validate p buf) as [e|].
  { right. eexists _, _. split; [reflexivity | simpl; tauto]. }
  destruct (Transform p buf) as [events [e|]].
  { right. eexists _, _. split; [reflexivity | simpl; tauto]. }
  destruct (report events) as [e|].
  - right. eexists _, _. split; [reflexivity | simpl; tauto].
  - left. reflexivity.
Qed.

Lemma processRequest_fst_World (r : http.Request) (p : Processor) (maxSize : Z)
    (report : reporter) (w w' : World) :
  fst (processRequest r p maxSize report w)
  = fst (processRequest r p maxSize report w').
Proof.
  unfold processRequest.
  destruct (negb (String.eqb (http.Method r) "POST")); [reflexivity|].
  destruct (decodeData r) as [reader|e]; [|reflexivity].
  destruct (ioutil.ReadAll buffer_slack (io.LimitReader reader maxSize)) as [buf [e|]];
    [reflexivity|].
  run. destruct (Validate p buf) as [e|]; [reflexivity|].
  destruct (Transform p buf) as [events [e|]]; [reflexivity|].
  destruct (report events) as [e|]; reflexivity.
Qed.

(** C2: the outcome of [processRequest] has a status among 202, 400, 401,
    405, 500 and 503, and carries an error exactly when the status is not
    202. *)
Theorem processRequest_outcome (r : http.Request) (p : Processor) (maxSize : Z)
    (report : reporter) (w : World) :
  let '(code, err) := fst (processRequest r p maxSize report w) in
  In code [202; 400; 401; 405; 500; 503] /\ (err <> None <-> code <> 202).
Proof.
  destruct (processRequest_cases r p maxSize report w)
    as [->|(code & e & -> & Hcode)].
  - split; [simpl; tauto | split; [congruence | lia]].
  - split; [simpl in *; tauto|].
    split; [intros _; simpl in Hcode; lia | discriminate].
Qed.

(** C6, as the code has it: a request whose method is not POST is answered
    405 with the error [errPOSTRequestOnly], whose message is "only POST
    requests are supported"; nothing else of the request is looked at and no
    collaborator is called. *)
Theorem processRequest_not_POST (r : http.Request) (p : Processor) (maxSize : Z)
    (report : reporter) (w : World) :
  http.Method r <> "POST" ->
  processRequest r p maxSize report w = ((405, Some errPOSTRequestOnly), w)
  /\ Error errPOSTRequestOnly = "only POST requests are supported".
Proof.
  intros Hm. unfold processRequest.
  apply String.eqb_neq in Hm. rewrite Hm. split; reflexivity.
Qed.

(** C7: when [Validate] rejects the buffer that was read, the outcome is
    status 400 with the very error [Validate] returned; [Validate] is the
    only collaborator called before the reader is closed. *)
Theorem processRequest_Validate_error (r : http.Request) (p : Processor)
    (maxSize : Z) (report : reporter) (w : World)
    (reader : io.Reader) (buf : list byte) (e : error) :
  http.Method r = "POST" ->
  decodeData r = inl reader ->
  ioutil.ReadAll buffer_slack (io.LimitReader reader maxSize) = (buf, None) ->
  Validate p buf = Some e ->
  fst (processRequest r p maxSize report w) = (400, Some e)
  /\ calls (snd (processRequest r p maxSize report w))
     = calls w ++ [call_Validate buf; call_reader_Close].
Proof.
  intros Hm Hd Hr Hv. unfold processRequest.
  rewrite (eqb_POST r Hm), Hd, Hr. run. rewrite Hv. cbn.
  split; [reflexivity | now rewrite <- app_assoc].
Qed.

(** A read error is answered 500, with the message of the error after
    "Data read error: ", and no collaborator is called. *)
Lemma processRequest_read_error (r : http.Request) (p : Processor)
    (maxSize : Z) (report : reporter) (w : World)
    (reader : io.Reader) (buf : list byte) (e : error) :
  http.Method r = "POST" ->
  decodeData r = inl reader ->
  ioutil.ReadAll buffer_slack (io.LimitReader reader maxSize) = (buf, Some e) ->
  fst (processRequest r p maxSize report w)
  = (500, Some (errors_New ("Data read error: " +:+ Error e)))
  /\ calls (snd (processRequest r p maxSize report w))
     = calls w ++ [call_reader_Close].
Proof.
  intros Hm Hd Hr. unfold processRequest.
  rewrite (eqb_POST r Hm), Hd, Hr. run. split; reflexivity.
Qed.

(** C10: for a POST request that decodes to a stream longer than [maxSize],
    the read ends without an error and [Validate] receives the first
    [maxSize] bytes of the stream; the outcome is not a read error and
    nothing is logged about the bytes left over. *)
Theorem processRequest_oversize_truncates (r : http.Request) (p : Processor)
    (maxSize : Z) (report : reporter) (w : World) (reader : io.Reader) :
  http.Method r = "POST" ->
  decodeData r = inl reader ->
  maxSize < Z.of_nat (length (io.contents reader)) ->
  let first := take (Z.to_nat maxSize) (io.contents reader) in
  ioutil.ReadAll buffer_slack (io.LimitReader reader maxSize) = (first, None)
  /\ (0 <= maxSize -> Z.of_nat (length first) = maxSize)
  /\ (exists rest,
        calls (snd (processRequest r p maxSize report w))
        = calls w ++ call_Validate first :: rest)
  /\ fst (fst (processRequest r p maxSize report w)) <> 500
  /\ logged (snd (processRequest r p maxSize report w)) = logged w.
Proof.
  intros Hm Hd Hover first.
  pose proof (ReadAll_over buffer_slack reader maxSize Hover) as Hr. fold first in Hr.
  split; [exact Hr|]. split.
  { intros H0. subst first. rewrite length_take. lia. }
  unfold processRequest. rewrite (eqb_POST r Hm), Hd, Hr. run.
  destruct (Validate p first) as [e|]; cbn.
  { split; [|split; [lia | reflexivity]].
    exists [call_reader_Close]. now rewrite <- app_assoc. }
  destruct (Transform p first) as [events [e|]]; cbn.
  { split; [|split; [lia | reflexivity]].
    exists [call_Transform first; call_reader_Close].
    now rewrite <- !app_assoc. }
  destruct (report events) as [e|]; cbn.
  all: split; [|split; [lia | reflexivity]].
  all: exists [call_Transform first; call_report events; call_reader_Close].
  all: now rewrite <- !app_assoc.
Qed.

(** C1, as the code has it: for a request whose decoded body is longer than
    [maxSize] (a maximum that is not negative), [Validate] never receives
    the whole body -- every buffer it is given is the body cut at [maxSize]
    bytes -- and the excess raises no read error: the status is not 500. *)
Theorem processRequest_oversize_no_error (r : http.Request) (p : Processor)
    (maxSize : Z) (report : reporter) (w : World) (reader : io.Reader) :
  0 <= maxSize ->
  decodeData r = inl reader ->
  maxSize < Z.of_nat (length (io.contents reader)) ->
  fst (fst (processRequest r p maxSize report w)) <> 500
  /\ exists added,
       calls (snd (processRequest r p maxSize report w)) = calls w ++ added
       /\ forall buf, In (call_Validate buf) added ->
            buf = take (Z.to_nat maxSize) (io.contents reader)
            /\ (length buf < length (io.contents reader))%nat.
Proof.
  intros H0 Hd Hover. unfold processRequest.
  destruct (negb (String.eqb (http.Method r) "POST")).
  { run. split; [lia|]. exists []. rewrite app_nil_r. split; [reflexivity|].
    intros buf []. }
  rewrite Hd, (ReadAll_over buffer_slack reader maxSize Hover). run.
  set (first := take (Z.to_nat maxSize) (io.contents reader)).
  pose (closed := [call_reader_Close] : list call).
  assert (Hfirst : forall (buf : list byte) (rest : list call),
            In (call_Validate buf) (call_Validate first :: rest) ->
            (forall c, In c rest -> forall b', c <> call_Validate b') ->
            buf = first /\ (length buf < length (io.contents reader))%nat).
  { intros buf rest [[= <-]|Hin] Hrest.
    - split; [reflexivity|]. subst first. rewrite length_take. lia.
    - exfalso. exact (Hrest _ Hin buf eq_refl). }
  destruct (Validate p first) as [e|]; cbn.
  { split; [lia|]. exists (call_Validate first :: closed).
    split; [now rewrite <- app_assoc|].
    intros buf Hin. apply (Hfirst buf _ Hin).
    intros c [<-|[]] b'. discriminate. }
  destruct (Transform p first) as [events [e|]]; cbn.
  { split; [lia|]. exists (call_Validate first :: call_Transform first :: closed).
    split; [now rewrite <- !app_assoc|].
    intros buf Hin. apply (Hfirst buf _ Hin).
    intros c [<-|[<-|[]]] b'; discriminate. }
  destruct (report events) as [e|]; cbn.
  all: split; [lia|].
  all: exists (call_Validate first :: call_Transform first
               :: call_report events :: closed).
  all: split; [now rewrite <- !app_assoc|].
  all: intros buf Hin; apply (Hfirst buf _ Hin).
  all: intros c [<-|[<-|[<-|[]]]] b'; discriminate.
Qed.

(** ** The authenticator *)

Lemma isAuthorized_no_secret (req : http.Request) : isAuthorized req "" = true.
Proof. reflexivity. Qed.

Lemma isAuthorized_not_two_parts (req : http.Request) (secret : string) :
  secret <> "" ->
  length (strings.Split (Header_Get (http.Header req) "Authorization") " ") <> 2%nat ->
  isAuthorized req secret = false.
Proof.
  intros Hs Hlen. unfold isAuthorized.
  apply String.eqb_neq in Hs. rewrite Hs.
  apply Nat.eqb_neq in Hlen. now rewrite Hlen.
Qed.

Lemma isAuthorized_two_parts (req : http.Request) (secret a t : string) :
  secret <> "" ->
  strings.Split (Header_Get (http.Header req) "Authorization") " " = [a; t] ->
  isAuthorized req secret = true <-> a = "Bearer" /\ t = secret.
Proof.
  intros Hs Hparts. unfold isAuthorized.
  apply String.eqb_neq in Hs. rewrite Hs, Hparts. cbn [length nth Nat.eqb negb orb].
  rewrite ConstantTimeCompare_spec.
  destruct (String.eqb_spec a "Bearer") as [->|Ha]; cbn [negb].
  - destruct (decide (list_byte_of_string t = list_byte_of_string secret)) as [Heq|Hne].
    + apply list_byte_of_string_inj in Heq. subst t. split; [auto | reflexivity].
    + split; [discriminate|]. intros [_ ->]. contradiction.
  - split; [discriminate|]. intros [-> _]. contradiction.
Qed.

Lemma Split_Bearer (t : string) :
  strings.Split ("Bearer " +:+ t) " " = "Bearer" :: strings.Split t " ".
Proof.
  unfold strings.Split.
  change ("Bearer " +:+ t) with ("Bearer" +:+ String " " t).
  now rewrite Split_first_space.
Qed.

(** The header "Bearer T" is accepted exactly when [T] is the secret and has
    no space in it. *)
Lemma isAuthorized_Bearer (req : http.Request) (secret t : string) :
  secret <> "" ->
  Header_Get (http.Header req) "Authorization" = "Bearer " +:+ t ->
  isAuthorized req secret = true <-> t = secret /\ strings.Contains t " " = false.
Proof.
  intros Hs Hh.
  destruct (strings.Contains t " ") eqn:Ht.
  - rewrite isAuthorized_not_two_parts; [intuition discriminate | exact Hs |].
    rewrite Hh, Split_Bearer. cbn [length].
    pose proof (Split_with_space "" t Ht). unfold strings.Split. lia.
  - rewrite (isAuthorized_two_parts req secret "Bearer" t Hs).
    + tauto.
    + rewrite Hh, Split_Bearer. unfold strings.Split.
      now rewrite (Split_no_space "" t Ht).
Qed.

Lemma isAuthorized_wrong_scheme (req : http.Request) (secret scheme tok : string) :
  secret <> "" -> scheme <> "Bearer" ->
  Header_Get (http.Header req) "Authorization" = scheme +:+ " " +:+ tok ->
  isAuthorized req secret = false.
Proof.
  intros Hs Hscheme Hh.
  destruct (strings.Contains scheme " ") eqn:Hsp.
  - (* the scheme itself has a space: three parts or more *)
    apply first_space in Hsp as (a & t & -> & Ha).
    apply isAuthorized_not_two_parts; [exact Hs|].
    rewrite Hh, append_assoc. unfold strings.Split.
    rewrite append_cons, Split_first_space by exact Ha. cbn [length].
    pose proof (Split_with_space "" (t +:+ " " +:+ tok) (Contains_space_app t tok)).
    lia.
  - (* the first part is the scheme *)
    destruct (isAuthorized req secret) eqn:Hauth; [exfalso | reflexivity].
    destruct (strings.Contains tok " ") eqn:Htok.
    + rewrite isAuthorized_not_two_parts in Hauth; [discriminate | exact Hs |].
      rewrite Hh. unfold strings.Split.
      change (scheme +:+ " " +:+ tok) with (scheme +:+ String " " tok).
      rewrite Split_first_space by exact Hsp. cbn [length].
      pose proof (Split_with_space "" tok Htok). lia.
    + apply (isAuthorized_two_parts req secret scheme tok Hs) in Hauth as [? _];
        [contradiction|].
      rewrite Hh. unfold strings.Split.
      change (scheme +:+ " " +:+ tok) with (scheme +:+ String " " tok).
      now rewrite Split_first_space, Split_no_space.
Qed.

Lemma Header_Get_absent (h : gmap string (list string)) (key : string) :
  h !! key = None -> Header_Get h key = "".
Proof. intros H. unfold Header_Get. now rewrite H. Qed.

(** C3, as the code has it: with no secret configured every request is
    authorized.  With a secret [S]: the header "Bearer S" is accepted when
    [S] has no space in it; "Bearer T" with [T] other than [S], a header
    with another scheme, a header that does not split into exactly two parts
    at its spaces, and an empty or absent header are all refused.  ([S] is
    [secret] and [T] is [token] below.) *)
Theorem isAuthorized_spec (req : http.Request) (secret : string) :
  isAuthorized req "" = true
  /\ (secret <> "" ->
      let header := Header_Get (http.Header req) "Authorization" in
      (strings.Contains secret " " = false -> header = "Bearer " +:+ secret ->
       isAuthorized req secret = true)
      /\ (forall token, token <> secret -> header = "Bearer " +:+ token ->
          isAuthorized req secret = false)
      /\ (forall scheme token, scheme <> "Bearer" ->
          header = scheme +:+ " " +:+ token -> isAuthorized req secret = false)
      /\ (length (strings.Split header " ") <> 2%nat ->
          isAuthorized req secret = false)
      /\ (header = "" -> isAuthorized req secret = false)
      /\ (http.Header req !! "Authorization" = None ->
          isAuthorized req secret = false)).
Proof.
  split; [apply isAuthorized_no_secret|]. intros Hsecret header.
  assert (Hempty : header = "" -> isAuthorized req secret = false).
  { intros Hh. apply isAuthorized_not_two_parts; [exact Hsecret|].
    fold header. rewrite Hh. cbn. lia. }
  repeat split.
  - intros Hsp Hh. apply (isAuthorized_Bearer req secret secret Hsecret Hh). auto.
  - intros token Htoken Hh.
    destruct (isAuthorized req secret) eqn:Hauth; [|reflexivity].
    apply (isAuthorized_Bearer req secret token Hsecret Hh) in Hauth as [? _].
    contradiction.
  - intros scheme token Hscheme Hh.
    exact (isAuthorized_wrong_scheme req secret scheme token Hsecret Hscheme Hh).
  - apply isAuthorized_not_two_parts. exact Hsecret.
  - exact Hempty.
  - intros Habs. apply Hempty. subst header. now apply Header_Get_absent.
Qed.

(** ** The decoder *)

Lemma sum_eta {A B : Type} (x : A + B) :
  match x with inl a => inl a | inr e => inr e end = x.
Proof. destruct x; reflexivity. Qed.

(** C4: [decodeData] fails unless [Content-Type] is exactly
    "application/json"; for a JSON request with a body, the encoding "gzip"
    gives the gzip reader over the body, "deflate" the zlib reader, and any
    other value, an absent header included, the body itself. *)
Theorem decodeData_spec (req : http.Request) :
  let ct := Header_Get (http.Header req) "Content-Type" in
  let enc := Header_Get (http.Header req) "Content-Encoding" in
  (ct <> "application/json" ->
   decodeData req = inr (errors_New ("invalid content type: " +:+ ct)))
  /\ (ct = "application/json" ->
      forall body, http.Body req = Some body ->
        (enc = "gzip" -> decodeData req = gzip_NewReader body)
        /\ (enc = "deflate" -> decodeData req = zlib_NewReader body)
        /\ (enc <> "gzip" -> enc <> "deflate" -> decodeData req = inl body)
        /\ (http.Header req !! "Content-Encoding" = None ->
            decodeData req = inl body)).
Proof.
  intros ct enc. unfold decodeData. fold ct enc. split.
  - intros Hct. apply String.eqb_neq in Hct. now rewrite Hct.
  - intros Hct body Hbody. rewrite Hct, Hbody. cbn [String.eqb negb].
    change (String.eqb "application/json" "application/json") with true.
    cbn [negb].
    assert (Hother : enc <> "gzip" -> enc <> "deflate" ->
                     (if String.eqb enc "deflate"
                      then match zlib_NewReader body with
                           | inl reader => inl reader | inr err => inr err end
                      else if String.eqb enc "gzip"
                           then match gzip_NewReader body with
                                | inl reader => inl reader | inr err => inr err end
                           else inl body) = inl body).
    { intros Hg Hd. apply String.eqb_neq in Hg, Hd. now rewrite Hg, Hd. }
    repeat split.
    + intros ->. cbn. apply sum_eta.
    + intros ->. cbn. apply sum_eta.
    + exact Hother.
    + intros Habs. apply Hother; subst enc;
        rewrite (Header_Get_absent _ _ Habs); discriminate.
Qed.

(** ** The status responder *)

Lemma acceptsJSON_iff (r : http.Request) :
  acceptsJSON r = true <->
  (exists pre post, Header_Get (http.Header r) "Accept" = pre +:+ "*/*" +:+ post)
  \/ (exists pre post,
        Header_Get (http.Header r) "Accept" = pre +:+ "application/json" +:+ post).
Proof.
  unfold acceptsJSON. rewrite orb_true_iff, !Contains_iff. reflexivity.
Qed.

(** What [sendStatus] sends on a fresh response writer. *)
Lemma sendStatus_response (r : http.Request) (code : Z) (err : option error)
    (w : World) :
  let rw := fst (sendStatus http.newResponseWriter r code err w) in
  http.status rw = Some code
  /\ http.sent_Header rw "Content-Type"
     = (if acceptsJSON r then "application/json" else "text/plain; charset=utf-8")
  /\ http.rw_body rw
     = match err with
       | None => []
       | Some e =>
           if http.bodyAllowedForStatus code then
             if acceptsJSON r then
               match json_Marshal {[ "error" := Error e ]} with
               | inl buf => buf
               | inr _ => []
               end
             else list_byte_of_string (Error e)
           else []
       end.
Proof.
  unfold sendStatus, sendJSON, sendPlain, http.status, http.sent_Header.
  destruct err as [e|]; run.
  - destruct (acceptsJSON r).
    + destruct (json_Marshal {[ "error" := Error e ]}) as [buf|e'];
        cbv [http.Write http.WriteHeader http.SetHeader http.newResponseWriter];
        cbn [http.rw_wrote http.rw_Header http.rw_body fst snd];
        destruct (http.bodyAllowedForStatus code);
        cbn [http.rw_wrote http.rw_Header http.rw_body fst snd fmap option_fmap option_map];
        unfold Header_Get, Header_Set; rewrite lookup_insert_eq; auto.
    + cbv [http.Write http.WriteHeader http.SetHeader http.newResponseWriter];
        cbn [http.rw_wrote http.rw_Header http.rw_body fst snd];
        destruct (http.bodyAllowedForStatus code);
        cbn [http.rw_wrote http.rw_Header http.rw_body fst snd fmap option_fmap option_map];
        unfold Header_Get, Header_Set; rewrite lookup_insert_eq; auto.
  - cbv [http.WriteHeader http.SetHeader http.newResponseWriter];
      cbn [http.rw_wrote http.rw_Header http.rw_body fst snd fmap option_fmap option_map];
      unfold Header_Get, Header_Set; rewrite lookup_insert_eq;
      destruct (acceptsJSON r); auto.
Qed.

Lemma bodyAllowed_codes (code : Z) :
  In code [202; 400; 401; 405; 500; 503] -> http.bodyAllowedForStatus code = true.
Proof.
  intros H. simpl in H. repeat destruct H as [<-|H]; try reflexivity. destruct H.
Qed.

(** C5: on every route of the server the format of the response follows the
    [Accept] header of the request.  If it contains "*/*" or
    "application/json", the [Content-Type] is "application/json" and the
    body of a failure is the JSON encoding of the object with the one field
    "error" holding the message of the error; otherwise the [Content-Type]
    is "text/plain; charset=utf-8" and the body of a failure is the message
    itself. *)
Theorem error_response_format (p : Processor) (config : Config)
    (report : reporter) (r : http.Request) (w : World) :
  let route :=
    logHandler (authHandler (SecretToken config) (appHandler p config report)) in
  let rw := fst (route http.newResponseWriter r w) in
  let accept := Header_Get (http.Header r) "Accept" in
  let outcome :=
    if isAuthorized r (SecretToken config)
    then fst (processRequest r p (MaxUnzippedSize config) report w)
    else (401, Some errInvalidToken) in
  (acceptsJSON r = true <->
     (exists pre post, accept = pre +:+ "*/*" +:+ post)
     \/ (exists pre post, accept = pre +:+ "application/json" +:+ post))
  /\ http.status rw = Some (fst outcome)
  /\ (acceptsJSON r = true ->
      http.sent_Header rw "Content-Type" = "application/json"
      /\ forall e buf, snd outcome = Some e ->
           json_Marshal {[ "error" := Error e ]} = inl buf ->
           http.rw_body rw = buf)
  /\ (acceptsJSON r = false ->
      http.sent_Header rw "Content-Type" = "text/plain; charset=utf-8"
      /\ forall e, snd outcome = Some e ->
           http.rw_body rw = list_byte_of_string (Error e)).
Proof.
  intros route rw accept outcome.
  split; [apply acceptsJSON_iff|].
  assert (Hrw : exists w', rw = fst (sendStatus http.newResponseWriter r
                                       (fst outcome) (snd outcome) w')
                /\ http.bodyAllowedForStatus (fst outcome) = true).
  { subst rw route outcome. unfold logHandler, authHandler, appHandler. run.
    match goal with |- context [Build_World ?a ?b ?c ?d ?e] =>
      set (w1 := Build_World a b c d e) end.
    destruct (isAuthorized r (SecretToken config)); cbn [negb]; cbv beta.
    - rewrite (processRequest_fst_World r p _ report w w1).
      pose proof (processRequest_cases r p (MaxUnzippedSize config) report w1) as Hc.
      destruct (processRequest r p (MaxUnzippedSize config) report w1)
        as [[code err] w2].
      exists w2. split; [reflexivity|]. cbn [fst snd] in *.
      apply bodyAllowed_codes.
      destruct Hc as [[= -> ->]|(c & e & [= -> ->] & Hin)]; simpl in *; tauto.
    - exists w1. split; reflexivity. }
  destruct Hrw as (w' & -> & Hallowed).
  destruct (sendStatus_response r (fst outcome) (snd outcome) w')
    as (Hst & Hct & Hbody).
  rewrite Hallowed in Hbody.
  split; [exact Hst|]. split.
  - intros Hacc. rewrite Hacc in Hct, Hbody. split; [exact Hct|].
    intros e buf He Hm. rewrite He, Hm in Hbody. rewrite He. exact Hbody.
  - intros Hacc. rewrite Hacc in Hct, Hbody. split; [exact Hct|].
    intros e He. rewrite He in Hbody. rewrite He. exact Hbody.
Qed.

(** ** Shutdown *)

Lemma forallb_filter_negb {A : Type} (f : A -> bool) (l : list A) :
  forallb f l = true -> List.filter (fun a => negb (f a)) l = [].
Proof.
  induction l as [|a l IH]; cbn [forallb List.filter]; [reflexivity|].
  intros H. apply andb_prop in H as [Ha Hl]. rewrite Ha. cbn [negb]. auto.
Qed.

Lemma closeIdleConns_spec (srv srv' : http.Server) (now : Z) (q : bool) :
  http.closeIdleConns srv now = (q, srv') ->
  http.listeners srv' = http.listeners srv
  /\ http.deadline_first srv' = http.deadline_first srv
  /\ (q = true -> http.activeConn srv' = [])
  /\ (forall c, (forall t, c t = false) -> In c (http.activeConn srv) ->
                q = false /\ In c (http.activeConn srv'))
  /\ (forall c, In c (http.activeConn srv') -> In c (http.activeConn srv)).
Proof.
  unfold http.closeIdleConns. intros H. injection H as <- <-.
  cbn [http.listeners http.deadline_first http.activeConn].
  split; [reflexivity|]. split; [reflexivity|].
  split; [apply forallb_filter_negb|]. split.
  - intros c Hc Hin. split.
    + destruct (forallb (http.idle now) (http.activeConn srv)) eqn:Hq;
        [|reflexivity].
      rewrite forallb_forall in Hq. specialize (Hq c Hin).
      unfold http.idle in Hq. rewrite Hc in Hq. discriminate.
    + apply filter_In. split; [exact Hin|]. unfold http.idle.
      now rewrite Hc.
  - intros c Hin. apply filter_In in Hin. tauto.
Qed.

(** The loop of [Shutdown] returns between the time it is entered and the
    deadline.  It returns [lnerr] with no connection left, or the error of
    the context at the deadline; the latter whenever a connection stays
    busy. *)
Lemma Shutdown_poll_spec (srv : http.Server) (lnerr : option error)
    (ctx : http.Context) (now : Z) :
  0 <= now -> now <= Z.max 0 (http.Done_at ctx) ->
  forall err t srv',
    http.Shutdown_poll srv lnerr ctx now = (err, t, srv') ->
    now <= t <= Z.max 0 (http.Done_at ctx)
    /\ http.listeners srv' = http.listeners srv
    /\ ((err = lnerr /\ http.activeConn srv' = [])
        \/ (err = Some http.context_DeadlineExceeded
            /\ t = Z.max 0 (http.Done_at ctx)))
    /\ ((exists c, (forall t, c t = false) /\ In c (http.activeConn srv)) ->
        err = Some http.context_DeadlineExceeded)
    /\ (forall c, In c (http.activeConn srv') -> In c (http.activeConn srv)).
Proof.
  funelim (http.Shutdown_poll srv lnerr ctx now);
    repeat match goal with H : @eq (sigma _) _ _ |- _ => clear H end;
    intros H0 Hd err t srv2 Heq;
    destruct (closeIdleConns_spec srv _ now _ eq_refl)
      as (Hl & _ & Hq & Hbusy & Hsub);
    unfold http.shutdownPollInterval in *.
  - (* no connection was busy *)
    injection Heq as <- <- <-.
    split; [lia|]. split; [exact Hl|]. split; [left; auto|].
    split; [|exact Hsub].
    intros (c & Hc & Hin). destruct (Hbusy c Hc Hin) as [? _]. congruence.
  - (* the deadline comes before the next tick *)
    injection Heq as <- <- <-.
    match goal with H : (_ <? _) = true |- _ => apply Z.ltb_lt in H end.
    split; [lia|]. split; [exact Hl|].
    split; [right; split; [reflexivity|lia]|].
    split; [reflexivity|exact Hsub].
  - (* the deadline and the next tick fall together *)
    injection Heq as <- <- <-.
    match goal with H : (_ && _) = true |- _ =>
      apply andb_prop in H as [H _]; apply Z.eqb_eq in H end.
    split; [lia|]. split; [exact Hl|].
    split; [right; split; [reflexivity|lia]|].
    split; [reflexivity|exact Hsub].
  - (* the next tick *)
    match goal with H : (_ <? _) = false |- _ => apply Z.ltb_ge in H end.
    match goal with
    | IH : 0 <= _ -> _ |- _ =>
        destruct (IH ltac:(lia) ltac:(lia) _ _ _ Heq)
          as (Ht & Hl' & Hcase & Hbusy' & Hsub')
    end.
    split; [lia|]. split; [exact Hl'|]. split; [exact Hcase|]. split.
    + intros (c & Hc & Hin). apply Hbusy'. exists c. split; [exact Hc|].
      now apply (Hbusy c Hc Hin).
    + intros c Hin. auto.
Qed.

Lemma Shutdown_spec (srv : http.Server) (ctx : http.Context) :
  forall err t srv',
    http.Shutdown srv ctx = (err, t, srv') ->
    0 <= t <= Z.max 0 (http.Done_at ctx)
    /\ http.listeners srv' = []
    /\ ((err = first_error (http.listeners srv) /\ http.activeConn srv' = [])
        \/ (err = Some http.context_DeadlineExceeded
            /\ t = Z.max 0 (http.Done_at ctx)))
    /\ ((exists c, (forall t, c t = false) /\ In c (http.activeConn srv)) ->
        err = Some http.context_DeadlineExceeded)
    /\ (forall c, In c (http.activeConn srv') -> In c (http.activeConn srv)).
Proof.
  unfold http.Shutdown, http.closeListenersLocked. intros err t srv' Heq.
  apply Shutdown_poll_spec in Heq; [|lia|lia].
  exact Heq.
Qed.

(** Once the listeners are closed, [Close] has none left whose close could
    fail. *)
Lemma Close_spec (srv : http.Server) :
  http.listeners (snd (http.Close srv)) = []
  /\ http.activeConn (snd (http.Close srv)) = []
  /\ fst (http.Close srv) = first_error (http.listeners srv).
Proof. unfold http.Close, http.closeListenersLocked. cbn. auto. Qed.

(** C8, as the code has it: [stop] attempts a graceful shutdown bounded by
    the configured timeout: it returns no later than the timeout after it
    was called.  It force-closes exactly when the shutdown returns an error,
    which it does with the error of the context, at the deadline, whenever a
    connection stays busy; either way no connection and no listener is left
    open.  The forced close that follows a shutdown answers no error: its
    listeners are closed already.  So [stop] logs the error of the shutdown
    and nothing else, and nothing else changes. *)
Theorem stop_spec (server : http.Server) (timeout : Z) (w : World) :
  let sh := http.Shutdown server (http.context_WithTimeout timeout) in
  let err := fst (fst sh) in
  let server' := fst (fst (stop server timeout w)) in
  let elapsed := snd (fst (stop server timeout w)) in
  let w' := snd (stop server timeout w) in
  let err_line (e : error) :=
    {| lvl := LevelErr; selector := ""; format := Error e; args := [] |} in
  0 <= elapsed <= Z.max 0 timeout
  /\ ((exists c, (forall t, c t = false) /\ In c (http.activeConn server)) ->
      err = Some http.context_DeadlineExceeded
      /\ elapsed = Z.max 0 timeout)
  /\ (calls w' = calls w ++ [call_Shutdown timeout]
      \/ calls w' = calls w ++ [call_Shutdown timeout; call_Close])
  /\ (calls w' = calls w ++ [call_Shutdown timeout; call_Close]
      <-> err <> None)
  /\ server' = match err with
                | Some _ => snd (http.Close (snd sh))
                | None => snd sh
                end
  /\ http.activeConn server' = []
  /\ http.listeners server' = []
  /\ fst (http.Close (snd sh)) = None
  /\ logged w'
     = logged w ++
       match err with
       | None => []
       | Some e => [err_line e]
       end
  /\ requestCounter w' = requestCounter w
  /\ responseValid w' = responseValid w
  /\ responseErrors w' = responseErrors w.
Proof.
  assert (Hne : forall l : list call,
            l ++ [call_Shutdown timeout]
            <> l ++ [call_Shutdown timeout; call_Close]).
  { intros l H. apply app_inv_head in H. discriminate. }
  unfold stop. run. cbv zeta.
  destruct (http.Shutdown server (http.context_WithTimeout timeout))
    as [[err t] srv] eqn:Hsh.
  cbn [fst snd].
  destruct (Shutdown_spec _ _ _ _ _ Hsh) as (Ht & Hl & Hcase & Hbusy & _).
  cbn [http.Done_at http.context_WithTimeout] in Ht, Hcase.
  destruct (Close_spec srv) as (Hcl & Hca & Hce). rewrite Hl in Hce.
  cbn [first_error] in Hce.
  destruct (http.Close srv) as [cerr srv2] eqn:Hclose.
  cbn [fst snd] in Hcl, Hca, Hce. subst cerr.
  assert (Htimeout :
            (exists c, (forall t, c t = false) /\ In c (http.activeConn server)) ->
            err = Some http.context_DeadlineExceeded /\ t = Z.max 0 timeout).
  { intros Hc. specialize (Hbusy Hc). split; [exact Hbusy|].
    destruct Hcase as [[He Ha]|[_ Hd]]; [|exact Hd].
    destruct Hc as (c & Hc & Hin). subst err.
    exfalso. clear - Hsh Ha Hc Hin.
    unfold http.Shutdown, http.closeListenersLocked in Hsh.
    (* a busy connection is never dropped by the loop *)
    revert Hsh Ha. generalize 0 at 1.
    intros now Hsh Ha.
    assert (Hkeep : forall s l x n e t' s',
               http.Shutdown_poll s l x n = (e, t', s') ->
               In c (http.activeConn s) -> In c (http.activeConn s')).
    { clear - Hc. intros s l x n.
      funelim (http.Shutdown_poll s l x n);
        repeat match goal with H : @eq (sigma _) _ _ |- _ => clear H end;
        intros e t' s' Heq Hin;
        destruct (closeIdleConns_spec srv _ now _ eq_refl)
          as (_ & _ & _ & Hb & _);
        destruct (Hb c Hc Hin) as [_ Hin'].
      1-3: injection Heq as <- <- <-; exact Hin'.
      eauto. }
    apply (Hkeep _ _ _ _ _ _ _ Hsh) in Hin. rewrite Ha in Hin. destruct Hin. }
  cbn [fst snd].
  destruct err as [e|]; run; cbn [fst snd].
  - rewrite <- !app_assoc; cbn [app].
    split; [exact Ht|]. split; [exact Htimeout|].
    split; [now right|]. split; [split; [discriminate | reflexivity]|].
    split; [reflexivity|]. split; [exact Hca|]. split; [exact Hcl|].
    split; [reflexivity|]. split; [reflexivity|].
    split; [reflexivity|]. split; reflexivity.
  - rewrite app_nil_r.
    destruct Hcase as [[_ Ha]|[Hd _]]; [|discriminate].
    split; [exact Ht|]. split; [exact Htimeout|].
    split; [now left|].
    split; [split; [intros H; now apply Hne in H | congruence]|].
    split; [reflexivity|]. split; [exact Ha|]. split; [exact Hl|].
    split; [reflexivity|]. split; [reflexivity|].
    split; [reflexivity|]. split; reflexivity.
Qed.

(** ** The health check *)

Lemma healthcheck_run (w : http.ResponseWriter) (r : http.Request) (s : World) :
  healthcheck w r s
  = (http.WriteHeader w 200,
     {| requestCounter := requestCounter s + 1;
        responseValid := responseValid s + 1;
        responseErrors := responseErrors s;
        logged := logged s;
        calls := calls s |}).
Proof. reflexivity. Qed.

Lemma serveAll_healthcheck (rs : list http.Request) (w : World) :
  let '(rws, w') := serveAll healthcheck rs w in
  length rws = length rs
  /\ Forall (fun rw => http.status rw = Some 200) rws
  /\ requestCounter w' = requestCounter w + Z.of_nat (length rs)
  /\ responseValid w' = responseValid w + Z.of_nat (length rs)
  /\ responseErrors w' = responseErrors w
  /\ logged w' = logged w
  /\ calls w' = calls w.
Proof.
  revert w. induction rs as [|r rs IH]; intros w.
  - cbn. repeat split; try lia. constructor.
  - cbn [serveAll]. unfold mbind, M_bind. rewrite healthcheck_run.
    match goal with |- context [serveAll healthcheck rs ?x] =>
      specialize (IH x); destruct (serveAll healthcheck rs x) as [rws w'] end.
    cbn [requestCounter responseValid responseErrors logged calls] in IH.
    destruct IH as (Hlen & Hall & Hreq & Hval & Herr & Hlog & Hcalls).
    unfold mret, M_ret. cbn [length].
    repeat split; try lia; try assumption.
    constructor; [reflexivity | exact Hall].
Qed.

(** C9: in the muxer that [newMuxer] builds, whatever the configured secret
    token, the handler of "/healthcheck" answers every request with status
    200; serving any sequence of requests adds one to the request counter
    and one to the valid-response counter per request and leaves the
    error-response counter as it was. *)
Theorem healthcheck_spec (Processors : gmap string Processor) (config : Config)
    (report : reporter) (w0 w1 : World) (mux : gmap string Handler) :
  newMuxer Processors config report w0 = (Some mux, w1) ->
  exists h,
    mux !! "/healthcheck" = Some h
    /\ forall (rs : list http.Request) (w : World),
         let '(rws, w') := serveAll h rs w in
         length rws = length rs
         /\ Forall (fun rw => http.status rw = Some 200) rws
         /\ requestCounter w' = requestCounter w + Z.of_nat (length rs)
         /\ responseValid w' = responseValid w + Z.of_nat (length rs)
         /\ responseErrors w' = responseErrors w.
Proof.
  unfold newMuxer, mbind, M_bind, mret, M_ret.
  destruct (addProcessors config report (map_to_list Processors) ∅ w0)
    as [[mux'|] w'] ; [|discriminate].
  unfold Handle. cbn [String.eqb].
  change (String.eqb "/healthcheck" "") with false. cbv iota.
  destruct (mux' !! "/healthcheck"); [discriminate|].
  intros [= <- <-]. exists healthcheck. split; [apply lookup_insert_eq|].
  intros rs w. pose proof (serveAll_healthcheck rs w) as H.
  destruct (serveAll healthcheck rs w) as [rws w''].
  destruct H as (? & ? & ? & ? & ? & _). auto.
Qed.

(** [newMuxer] does build a muxer (no registration panics) when neither the
    empty path nor "/healthcheck" is a processor path. *)
Lemma addProcessors_succeeds (config : Config) (report : reporter)
    (routes : list (string * Processor)) (mux : gmap string Handler) (w : World) :
  NoDup routes.*1 ->
  (forall path, path ∈ routes.*1 -> path <> "" /\ mux !! path = None) ->
  exists mux' w',
    addProcessors config report routes mux w = (Some mux', w')
    /\ forall k, k ∉ routes.*1 -> mux' !! k = mux !! k.
Proof.
  revert mux w. induction routes as [|[path p] routes IH]; intros mux w Hnd Hfree.
  - exists mux, w. split; [reflexivity | auto].
  - cbn [fmap list_fmap fst] in Hnd, Hfree. apply NoDup_cons in Hnd as [Hnotin Hnd].
    destruct (Hfree path) as [Hne Hnone]; [left|].
    cbn [addProcessors]. run. unfold Handle.
    apply String.eqb_neq in Hne. rewrite Hne, Hnone.
    match goal with |- context [addProcessors _ _ _ ?m ?x] =>
      destruct (IH m x Hnd) as (mux' & w' & Heq & Hrest) end.
    + intros path' Hin. destruct (Hfree path') as [? ?]; [now right|].
      split; [assumption|]. rewrite lookup_insert_ne; [assumption|].
      intros ->. contradiction.
    + exists mux', w'. split; [exact Heq|].
      intros k Hk. cbn [fmap list_fmap fst] in Hk.
      apply not_elem_of_cons in Hk as [Hkp Hk].
      rewrite (Hrest k Hk). now rewrite lookup_insert_ne.
Qed.

Lemma newMuxer_succeeds (Processors : gmap string Processor) (config : Config)
    (report : reporter) (w : World) :
  Processors !! "" = None ->
  Processors !! "/healthcheck" = None ->
  exists mux w1, newMuxer Processors config report w = (Some mux, w1).
Proof.
  intros Hempty Hhc.
  assert (Hkey : forall k, k ∈ (map_to_list Processors).*1 ->
                           is_Some (Processors !! k)).
  { intros k Hk. apply list_elem_of_fmap in Hk as ([k' v] & -> & Hin).
    apply elem_of_map_to_list in Hin. eauto. }
  destruct (addProcessors_succeeds config report (map_to_list Processors) ∅ w)
    as (mux' & w' & Heq & Hrest).
  - apply NoDup_fst_map_to_list.
  - intros path Hin. apply Hkey in Hin as [v Hv].
    split; [intros ->; congruence | apply lookup_empty].
  - unfold newMuxer, mbind, M_bind, mret, M_ret. rewrite Heq.
    unfold Handle. change (String.eqb "/healthcheck" "") with false. cbv iota.
    rewrite Hrest, lookup_empty; [eauto|].
    intros Hin. apply Hkey in Hin as [v Hv]. congruence.
Qed.

(** * More of the pipeline *)

(** ** The limited read, for every stream *)

(** Whatever the stream does, the loop returns a prefix of it of at most
    [N] bytes. *)
Lemma ReadFrom_bound (slack : nat -> nat) (l : io.LimitedReader) (buf : list byte) :
  exists d,
    fst (ioutil.ReadFrom slack l buf) = buf ++ d
    /\ d `prefix_of` io.contents (io.lr_R l)
    /\ Z.of_nat (length d) <= Z.max 0 (io.lr_N l).
Proof.
  funelim (ioutil.ReadFrom slack l buf);
    repeat match goal with H : @eq (sigma _) _ _ |- _ => clear H end.
  - (* the read reported an error *)
    exists m. split; [destruct (decide (e = io_EOF)); reflexivity|].
    destruct (Z_le_gt_dec (io.lr_N l) 0) as [HN|HN].
    + match goal with H : io.LimitedReader_Read _ _ = _ |- _ =>
        rewrite LimitedReader_Read_done in H by exact HN;
        injection H as <- <- <- end.
      split; [apply prefix_nil | simpl; lia].
    + pose proof (LimitedReader_Read_step l
                    (ioutil.MinRead + slack (length buf))) as Hs.
      match goal with H : io.LimitedReader_Read _ _ = _ |- _ => rewrite H in Hs end.
      destruct Hs as (Hle & _ & Hc & _); [unfold ioutil.MinRead; lia | lia |].
      rewrite Hc. split; [reflexivity | lia].
  - (* the read reported no error: the loop goes on *)
    destruct (Z_le_gt_dec (io.lr_N l) 0) as [HN|HN].
    + match goal with H : io.LimitedReader_Read _ _ = _ |- _ =>
        rewrite LimitedReader_Read_done in H by exact HN; discriminate H end.
    + pose proof (LimitedReader_Read_step l
                    (ioutil.MinRead + slack (length buf))) as Hs.
      match goal with H : io.LimitedReader_Read _ _ = _ |- _ => rewrite H in Hs end.
      destruct Hs as (Hle & HN' & Hc & _); [unfold ioutil.MinRead; lia | lia |].
      match goal with IH : exists _, _ |- _ => destruct IH as (d & Hd & Hpre & Hlen) end.
      exists (m ++ d). rewrite Hd, Hc, app_assoc. split; [reflexivity|].
      split; [now apply prefix_app|]. rewrite length_app. lia.
Qed.

(** A stream that ends without an error and fits in the limit is read whole,
    also when it fills the limit exactly. *)
Lemma ReadFrom_within (slack : nat -> nat) (l : io.LimitedReader) (buf : list byte) :
  Z.of_nat (length (io.contents (io.lr_R l))) <= io.lr_N l ->
  io.failure (io.lr_R l) = None ->
  ioutil.ReadFrom slack l buf = (buf ++ io.contents (io.lr_R l), None).
Proof.
  funelim (ioutil.ReadFrom slack l buf); intros Hfit Hclean;
    repeat match goal with H : @eq (sigma _) _ _ |- _ => clear H end.
  - destruct (Z_le_gt_dec (io.lr_N l) 0) as [HN|HN].
    + match goal with H : io.LimitedReader_Read _ _ = _ |- _ =>
        rewrite LimitedReader_Read_done in H by exact HN;
        injection H as <- <- <- end.
      assert (io.contents (io.lr_R l) = []) as -> by (apply length_zero_iff_nil; lia).
      destruct (decide (io_EOF = io_EOF)); [reflexivity | congruence].
    + pose proof (LimitedReader_Read_step l
                    (ioutil.MinRead + slack (length buf))) as Hs.
      match goal with H : io.LimitedReader_Read _ _ = _ |- _ => rewrite H in Hs end.
      destruct Hs as (_ & _ & Hc & Hf); [unfold ioutil.MinRead; lia | lia |].
      rewrite Hclean in Hf. rewrite Hc.
      destruct (decide (e = io_EOF)); [reflexivity | discriminate].
  - destruct (Z_le_gt_dec (io.lr_N l) 0) as [HN|HN].
    + match goal with H : io.LimitedReader_Read _ _ = _ |- _ =>
        rewrite LimitedReader_Read_done in H by exact HN; discriminate H end.
    + pose proof (LimitedReader_Read_step l
                    (ioutil.MinRead + slack (length buf))) as Hs.
      match goal with H : io.LimitedReader_Read _ _ = _ |- _ => rewrite H in Hs end.
      destruct Hs as (Hle & HN' & Hc & Hf); [unfold ioutil.MinRead; lia | lia |].
      rewrite Hc in Hfit |- *. rewrite length_app in Hfit.
      match goal with IH : _ -> _ -> ioutil.ReadFrom _ _ _ = _ |- _ =>
        rewrite IH; [now rewrite <- app_assoc | lia | congruence] end.
Qed.

Lemma ReadAll_bound (slack : nat -> nat) (r : io.Reader) (n : Z) :
  fst (ioutil.ReadAll slack (io.LimitReader r n)) `prefix_of` io.contents r
  /\ Z.of_nat (length (fst (ioutil.ReadAll slack (io.LimitReader r n)))) <= Z.max 0 n.
Proof.
  unfold ioutil.ReadAll.
  destruct (ReadFrom_bound slack (io.LimitReader r n) []) as (d & -> & Hpre & Hlen).
  split; [exact Hpre | exact Hlen].
Qed.

Lemma ReadAll_within (slack : nat -> nat) (r : io.Reader) (n : Z) :
  Z.of_nat (length (io.contents r)) <= n ->
  io.failure r = None ->
  ioutil.ReadAll slack (io.LimitReader r n) = (io.contents r, None).
Proof. intros Hfit Hclean. unfold ioutil.ReadAll. now rewrite ReadFrom_within. Qed.


(** ** What [processRequest] calls, and when *)

Ltac in_cases :=
  repeat match goal with
         | H : In _ [] |- _ => destruct H
         | H : In _ (_ :: _) |- _ =>
             destruct H as [H|H];
             [first [discriminate H | injection H as H; subst] |]
         end.

(** The calls of one run of [processRequest], after a successful read of
    [buf]: [Validate], then [Transform] if the payload is valid, then the
    reporter if it was transformed, and the close of the reader. *)
Lemma processRequest_after_read (r : http.Request) (p : Processor)
    (maxSize : Z) (report : reporter) (w : World)
    (reader : io.Reader) (buf : list byte) :
  http.Method r = "POST" ->
  decodeData r = inl reader ->
  ioutil.ReadAll buffer_slack (io.LimitReader reader maxSize) = (buf, None) ->
  exists code err rest,
    processRequest r p maxSize report w
    = ((code, err),
       {| requestCounter := requestCounter w; responseValid := responseValid w;
          responseErrors := responseErrors w; logged := logged w;
          calls := calls w ++ call_Validate buf :: rest ++ [call_reader_Close] |})
    /\ ((rest = [] /\ code = 400 /\ err <> None /\ Validate p buf = err)
        \/ (rest = [call_Transform buf] /\ code = 400 /\ err <> None
            /\ Validate p buf = None /\ snd (Transform p buf) = err)
        \/ (exists events,
              rest = [call_Transform buf; call_report events]
              /\ Validate p buf = None /\ Transform p buf = (events, None)
              /\ report events = err
              /\ ((err <> None /\ code = 503) \/ (err = None /\ code = 202)))).
Proof.
  intros Hm Hd Hr. unfold processRequest.
  rewrite (eqb_POST r Hm), Hd, Hr. run.
  destruct (Validate p buf) as [e|] eqn:Hv; cbn.
  { exists 400, (Some e), []. rewrite <- app_assoc.
    split; [reflexivity|]. left. repeat split; congruence. }
  destruct (Transform p buf) as [events [e|]] eqn:Ht; cbn.
  { exists 400, (Some e), [call_Transform buf]. rewrite <- !app_assoc.
    split; [reflexivity|]. right. left. repeat split; congruence. }
  destruct (report events) as [e|] eqn:Hrep; cbn.
  - exists 503, (Some e), [call_Transform buf; call_report events].
    rewrite <- !app_assoc. split; [reflexivity|]. right. right.
    exists events. repeat split; try assumption. left. split; congruence.
  - exists 202, None, [call_Transform buf; call_report events].
    rewrite <- !app_assoc. split; [reflexivity|]. right. right.
    exists events. repeat split; try assumption. right. split; reflexivity.
Qed.

(** The runs that do not reach [Validate]. *)
Lemma processRequest_before_read (r : http.Request) (p : Processor)
    (maxSize : Z) (report : reporter) (w : World) :
  (exists code err,
     processRequest r p maxSize report w = ((code, err), w)
     /\ err <> None /\ code <> 202
     /\ (http.Method r <> "POST" \/ exists e, decodeData r = inr e))
  \/ (exists reader buf e,
        http.Method r = "POST" /\ decodeData r = inl reader
        /\ ioutil.ReadAll buffer_slack (io.LimitReader reader maxSize) = (buf, Some e)
        /\ processRequest r p maxSize report w
           = ((500, Some (errors_New ("Data read error: " +:+ Error e))),
              {| requestCounter := requestCounter w;
                 responseValid := responseValid w;
                 responseErrors := responseErrors w; logged := logged w;
                 calls := calls w ++ [call_reader_Close] |}))
  \/ (exists reader buf,
        http.Method r = "POST" /\ decodeData r = inl reader
        /\ ioutil.ReadAll buffer_slack (io.LimitReader reader maxSize) = (buf, None)).
Proof.
  unfold processRequest.
  destruct (String.eqb_spec (http.Method r) "POST") as [Hm|Hm]; cbn [negb].
  2: { left. eexists _, _. split; [reflexivity|].
       split; [discriminate|]. split; [lia | now left]. }
  destruct (decodeData r) as [reader|e] eqn:Hd.
  2: { left. eexists _, _. split; [reflexivity|].
       split; [discriminate|]. split; [lia | right; eauto]. }
  destruct (ioutil.ReadAll buffer_slack (io.LimitReader reader maxSize))
    as [buf [e|]] eqn:Hr.
  - right. left. exists reader, buf, e. run. repeat split; reflexivity || assumption.
  - right. right. exists reader, buf. auto.
Qed.

(** X5: the calls of a run of [processRequest], exactly.  A request that is
    not a POST or does not decode makes no call at all.  Otherwise the reader
    was opened, and it is closed exactly once, as the last call, also when
    the read fails; before the close come, only after a read without error,
    [Validate] on the buffer that was read, once, then [Transform] on the
    same buffer only if [Validate] accepted it, then the reporter, with the
    events [Transform] returned, only if [Transform] succeeded.  The counters
    and the log are left as they were. *)
Theorem processRequest_call_order (r : http.Request) (p : Processor)
    (maxSize : Z) (report : reporter) (w : World) :
  let w' := snd (processRequest r p maxSize report w) in
  exists added,
    calls w' = calls w ++ added
    /\ ((added = []
         /\ (http.Method r <> "POST" \/ exists e, decodeData r = inr e))
        \/ (exists reader buf rerr,
              http.Method r = "POST"
              /\ decodeData r = inl reader
              /\ ioutil.ReadAll buffer_slack (io.LimitReader reader maxSize)
                 = (buf, rerr)
              /\ ((rerr <> None /\ added = [call_reader_Close])
                  \/ (rerr = None /\ Validate p buf <> None
                      /\ added = [call_Validate buf; call_reader_Close])
                  \/ (rerr = None /\ Validate p buf = None
                      /\ snd (Transform p buf) <> None
                      /\ added = [call_Validate buf; call_Transform buf;
                                  call_reader_Close])
                  \/ (exists events,
                        rerr = None /\ Validate p buf = None
                        /\ Transform p buf = (events, None)
                        /\ added = [call_Validate buf; call_Transform buf;
                                    call_report events; call_reader_Close]))))
    /\ requestCounter w' = requestCounter w
    /\ responseValid w' = responseValid w
    /\ responseErrors w' = responseErrors w
    /\ logged w' = logged w.
Proof.
  intros w'. subst w'.
  destruct (processRequest_before_read r p maxSize report w)
    as [(code & err & -> & _ & _ & Hnot)
       |[(reader & buf & e & Hm & Hd & Hr & ->)
        |(reader & buf & Hm & Hd & Hr)]].
  - exists []. rewrite app_nil_r. cbn [snd].
    split; [reflexivity|]. split; [left; split; [reflexivity | exact Hnot]|].
    auto.
  - exists [call_reader_Close].
    cbn [snd calls requestCounter responseValid responseErrors logged].
    split; [reflexivity|]. split; [|auto].
    right. exists reader, buf, (Some e).
    split; [exact Hm|]. split; [exact Hd|]. split; [exact Hr|].
    left. split; [discriminate | reflexivity].
  - destruct (processRequest_after_read r p maxSize report w reader buf Hm Hd Hr)
      as (code & err & rest & -> & Hrest).
    exists (call_Validate buf :: rest ++ [call_reader_Close]).
    cbn [snd calls requestCounter responseValid responseErrors logged].
    split; [reflexivity|]. split; [|auto].
    right. exists reader, buf, None.
    split; [exact Hm|]. split; [exact Hd|]. split; [exact Hr|]. right.
    destruct Hrest as [(-> & _ & Hne & Hv)
                      |[(-> & _ & Hne & Hv & Ht)
                       |(events & -> & Hv & Ht & _)]]; cbn [app].
    + left. split; [reflexivity|]. split; [congruence | reflexivity].
    + right. left. split; [reflexivity|]. split; [exact Hv|].
      split; [congruence | reflexivity].
    + right. right. exists events. auto.
Qed.

(** X6: [processRequest] answers 202 exactly when the request is a POST that
    decodes, reads without error, and whose buffer is accepted by [Validate],
    transformed by [Transform] and taken by the reporter. *)
Theorem processRequest_accepted_iff (r : http.Request) (p : Processor)
    (maxSize : Z) (report : reporter) (w : World) :
  fst (fst (processRequest r p maxSize report w)) = 202
  <-> http.Method r = "POST"
      /\ exists reader buf events,
           decodeData r = inl reader
           /\ ioutil.ReadAll buffer_slack (io.LimitReader reader maxSize) = (buf, None)
           /\ Validate p buf = None
           /\ Transform p buf = (events, None)
           /\ report events = None.
Proof.
  split.
  - intros H202.
    destruct (processRequest_before_read r p maxSize report w)
      as [(code & err & Heq & _ & Hcode & _)
         |[(reader & buf & e & _ & _ & _ & Heq)
          |(reader & buf & Hm & Hd & Hr)]].
    + rewrite Heq in H202. cbn in H202. contradiction.
    + rewrite Heq in H202. discriminate H202.
    + split; [exact Hm|].
      destruct (processRequest_after_read r p maxSize report w reader buf Hm Hd Hr)
        as (code & err & rest & Heq & Hrest).
      rewrite Heq in H202. cbn in H202. subst code.
      destruct Hrest as [(_ & [=] & _)|[(_ & [=] & _)
                                       |(events & _ & Hv & Ht & Hrep & Hc)]].
      destruct Hc as [[_ [=]]|[-> _]].
      exists reader, buf, events. auto.
  - intros (Hm & reader & buf & events & Hd & Hr & Hv & Ht & Hrep).
    unfold processRequest. rewrite (eqb_POST r Hm), Hd, Hr. run.
    now rewrite Hv, Ht, Hrep.
Qed.


(** ** Decoding failures *)

(** X3: [decodeData] fails in exactly four ways: a content type other than
    "application/json" (reported first, with the content type in the
    message), a nil body, and an error of the zlib or of the gzip reader
    (passed on as it is) when the encoding asks for it.  It never fails for
    another encoding. *)
Theorem decodeData_error_iff (req : http.Request) (e : error) :
  let ct := Header_Get (http.Header req) "Content-Type" in
  let enc := Header_Get (http.Header req) "Content-Encoding" in
  decodeData req = inr e
  <-> (ct <> "application/json"
       /\ e = errors_New ("invalid content type: " +:+ ct))
      \/ (ct = "application/json" /\ http.Body req = None
          /\ e = errors_New "No content supplied")
      \/ (ct = "application/json"
          /\ exists body, http.Body req = Some body
             /\ ((enc = "deflate" /\ zlib_NewReader body = inr e)
                 \/ (enc = "gzip" /\ gzip_NewReader body = inr e))).
Proof.
  intros ct enc. unfold decodeData. fold ct enc.
  destruct (String.eqb_spec ct "application/json") as [Hct|Hct]; cbn [negb].
  2: { split.
       - intros [= <-]. left. auto.
       - intros [(_ & ->)|[(? & _)|(? & _)]]; [reflexivity | contradiction..]. }
  destruct (http.Body req) as [body|].
  2: { split.
       - intros [= <-]. right. left. auto.
       - intros [(? & _)|[(_ & _ & ->)|(_ & body & [=] & _)]];
           [contradiction | reflexivity]. }
  destruct (String.eqb_spec enc "deflate") as [Hd|Hd].
  { split.
    - intros H. right. right. split; [exact Hct|]. exists body.
      split; [reflexivity|]. left. split; [exact Hd|].
      destruct (zlib_NewReader body); congruence.
    - intros [(? & _)|[(_ & [=] & _)|(_ & body' & [= <-] & Henc)]];
        [contradiction|].
      destruct Henc as [(_ & ->)|(Hg & _)]; [reflexivity|].
      rewrite Hd in Hg. discriminate Hg. }
  destruct (String.eqb_spec enc "gzip") as [Hg|Hg].
  { split.
    - intros H. right. right. split; [exact Hct|]. exists body.
      split; [reflexivity|]. right. split; [exact Hg|].
      destruct (gzip_NewReader body); congruence.
    - intros [(? & _)|[(_ & [=] & _)|(_ & body' & [= <-] & Henc)]];
        [contradiction|].
      destruct Henc as [(? & _)|(_ & ->)]; [contradiction | reflexivity]. }
  split; [discriminate|].
  intros [(? & _)|[(_ & [=] & _)|(_ & body' & _ & [(? & _)|(? & _)])]];
    contradiction.
Qed.

(** X4: a POST that does not decode is answered 400 with the reason after
    "Decoding error: ", and [processRequest] leaves the state as it was: no
    processor or reporter is called and no reader is closed.  A wrong
    content type is named in the message, and a nil body reads "No content
    supplied". *)
Theorem processRequest_decode_error (r : http.Request) (p : Processor)
    (maxSize : Z) (report : reporter) (w : World) :
  http.Method r = "POST" ->
  let ct := Header_Get (http.Header r) "Content-Type" in
  (forall e, decodeData r = inr e ->
     processRequest r p maxSize report w
     = ((400, Some (errors_New ("Decoding error: " +:+ Error e))), w))
  /\ (ct <> "application/json" ->
      processRequest r p maxSize report w
      = ((400, Some (errors_New
                       ("Decoding error: invalid content type: " +:+ ct))), w))
  /\ (ct = "application/json" -> http.Body r = None ->
      processRequest r p maxSize report w
      = ((400, Some (errors_New "Decoding error: No content supplied")), w)).
Proof.
  intros Hm ct.
  assert (Hgen : forall e, decodeData r = inr e ->
            processRequest r p maxSize report w
            = ((400, Some (errors_New ("Decoding error: " +:+ Error e))), w)).
  { intros e He. unfold processRequest. now rewrite (eqb_POST r Hm), He. }
  split; [exact Hgen|]. split.
  - intros Hct. rewrite (Hgen (errors_New ("invalid content type: " +:+ ct))).
    + reflexivity.
    + unfold decodeData. fold ct. apply String.eqb_neq in Hct. now rewrite Hct.
  - intros Hct Hbody. rewrite (Hgen (errors_New "No content supplied")).
    + reflexivity.
    + unfold decodeData. fold ct. now rewrite Hct, Hbody.
Qed.


(** ** The size limit, for every request *)

(** X7: whatever the request, a buffer that reaches [Validate] is a prefix
    of the decoded body and has at most [maxSize] bytes (none at all for a
    negative [maxSize]). *)
Theorem processRequest_buffer_bound (r : http.Request) (p : Processor)
    (maxSize : Z) (report : reporter) (w : World) :
  exists added,
    calls (snd (processRequest r p maxSize report w)) = calls w ++ added
    /\ forall buf, In (call_Validate buf) added ->
         Z.of_nat (length buf) <= Z.max 0 maxSize
         /\ exists reader,
              decodeData r = inl reader /\ buf `prefix_of` io.contents reader.
Proof.
  destruct (processRequest_before_read r p maxSize report w)
    as [(code & err & -> & _)
       |[(reader & buf & e & _ & _ & _ & ->)
        |(reader & buf & Hm & Hd & Hr)]].
  - exists []. rewrite app_nil_r. split; [reflexivity | intros b []].
  - exists [call_reader_Close]. split; [reflexivity|]. intros b Hin. in_cases.
  - destruct (processRequest_after_read r p maxSize report w reader buf Hm Hd Hr)
      as (code & err & rest & -> & Hrest).
    exists (call_Validate buf :: rest ++ [call_reader_Close]).
    split; [reflexivity|]. intros b Hin.
    assert (b = buf) as ->.
    { destruct Hrest as [(-> & _)|[(-> & _)|(events & -> & _)]];
        cbn [app] in Hin; in_cases; reflexivity. }
    destruct (ReadAll_bound buffer_slack reader maxSize) as [Hpre Hlen].
    rewrite Hr in Hpre, Hlen. cbn [fst] in Hpre, Hlen.
    split; [exact Hlen|]. exists reader. auto.
Qed.

(** X8: a POST whose decoded body ends without an error and has at most
    [maxSize] bytes -- exactly [maxSize] included -- reaches [Validate]
    whole. *)
Theorem processRequest_within_limit (r : http.Request) (p : Processor)
    (maxSize : Z) (report : reporter) (w : World) (reader : io.Reader) :
  http.Method r = "POST" ->
  decodeData r = inl reader ->
  Z.of_nat (length (io.contents reader)) <= maxSize ->
  io.failure reader = None ->
  fst (fst (processRequest r p maxSize report w)) <> 500
  /\ exists rest,
       calls (snd (processRequest r p maxSize report w))
       = calls w ++ call_Validate (io.contents reader) :: rest.
Proof.
  intros Hm Hd Hfit Hclean.
  pose proof (ReadAll_within buffer_slack reader maxSize Hfit Hclean) as Hr.
  destruct (processRequest_after_read r p maxSize report w reader _ Hm Hd Hr)
    as (code & err & rest & -> & Hrest).
  split.
  - cbn. destruct Hrest as [(_ & -> & _)|[(_ & -> & _)|(events & _ & _ & _ & _ & Hc)]];
      [lia | lia |]. destruct Hc as [[_ ->]|[_ ->]]; lia.
  - exists (rest ++ [call_reader_Close]). reflexivity.
Qed.

(** X9: a POST whose decoded body breaks with an error before [maxSize]
    bytes is answered 500 with the message of the error after
    "Data read error: "; the bytes read are dropped and no processor or
    reporter is called. *)
Theorem processRequest_broken_stream (r : http.Request) (p : Processor)
    (maxSize : Z) (report : reporter) (w : World)
    (reader : io.Reader) (e : error) :
  http.Method r = "POST" ->
  decodeData r = inl reader ->
  Z.of_nat (length (io.contents reader)) < maxSize ->
  io.failure reader = Some e ->
  fst (processRequest r p maxSize report w)
  = (500, Some (errors_New ("Data read error: " +:+ Error e)))
  /\ calls (snd (processRequest r p maxSize report w))
     = calls w ++ [call_reader_Close].
Proof.
  intros Hm Hd Hunder Hfail.
  pose proof (ReadAll_under buffer_slack reader maxSize Hunder) as Hr.
  rewrite Hfail in Hr.
  exact (processRequest_read_error r p maxSize report w reader _ e Hm Hd Hr).
Qed.


(** ** The authenticator, completely *)

(** A header that splits into two parts is those parts around one space. *)
Lemma Split_two_parts (h a t : string) :
  strings.Split h " " = [a; t] ->
  h = a +:+ " " +:+ t /\ strings.Contains t " " = false.
Proof.
  unfold strings.Split. intros Hparts.
  destruct (strings.Contains h " ") eqn:Hh.
  - apply first_space in Hh as (a' & t' & -> & Ha').
    rewrite Split_first_space in Hparts by exact Ha'.
    change ("" +:+ a') with a' in Hparts.
    destruct (strings.Contains t' " ") eqn:Ht'.
    + pose proof (Split_with_space "" t' Ht') as Hlen.
      destruct (strings.Split_from " " 0 "" t') as [|? [|? ?]];
        cbn in Hlen; [lia | lia | discriminate Hparts].
    + rewrite Split_no_space in Hparts by exact Ht'.
      change ("" +:+ t') with t' in Hparts.
      injection Hparts as <- <-. split; [reflexivity | exact Ht'].
  - rewrite Split_no_space in Hparts by exact Hh. discriminate Hparts.
Qed.

(** X1: [isAuthorized] accepts a request exactly when no secret is
    configured, or the secret has no space in it and the first
    [Authorization] value is "Bearer ", followed by the secret and nothing
    else.  No other header is ever accepted. *)
Theorem isAuthorized_iff (req : http.Request) (secret : string) :
  isAuthorized req secret = true
  <-> secret = ""
      \/ (Header_Get (http.Header req) "Authorization" = "Bearer " +:+ secret
          /\ strings.Contains secret " " = false).
Proof.
  destruct (String.eqb_spec secret "") as [->|Hsecret].
  { split; [now left | intros _; apply isAuthorized_no_secret]. }
  split.
  - intros Hauth. right.
    destruct (strings.Split (Header_Get (http.Header req) "Authorization") " ")
      as [|a [|t [|]]] eqn:Hparts.
    1,2,4: rewrite isAuthorized_not_two_parts in Hauth;
           [discriminate | exact Hsecret | rewrite Hparts; cbn; lia].
    destruct (proj1 (isAuthorized_two_parts req secret a t Hsecret Hparts) Hauth)
      as [Ha Ht].
    apply Split_two_parts in Hparts as [Hh Hsp].
    rewrite Ha, Ht in Hh. rewrite Ht in Hsp. auto.
  - intros [->|[Hh Hsp]]; [contradiction|].
    apply (isAuthorized_Bearer req secret secret Hsecret Hh). auto.
Qed.

(** ** The effects of the responder *)

(** [sendStatus] counts every response once, as valid when there is no
    error and as an error otherwise; it leaves the request counter and the
    trace of calls alone. *)
Lemma sendStatus_World (rw : http.ResponseWriter) (r : http.Request) (code : Z)
    (err : option error) (w : World) :
  let w' := snd (sendStatus rw r code err w) in
  requestCounter w' = requestCounter w
  /\ calls w' = calls w
  /\ responseValid w'
     = responseValid w + match err with Some _ => 0 | None => 1 end
  /\ responseErrors w'
     = responseErrors w + match err with Some _ => 1 | None => 0 end.
Proof.
  unfold sendStatus, sendJSON, sendPlain. destruct err as [e|]; run.
  - destruct (acceptsJSON r);
      [destruct (json_Marshal {[ "error" := Error e ]})|]; run; cbn;
      repeat split; lia.
  - cbn. repeat split; lia.
Qed.

(** ** The routes, request by request *)

Lemma processRequest_World (r : http.Request) (p : Processor) (maxSize : Z)
    (report : reporter) (w : World) :
  let w' := snd (processRequest r p maxSize report w) in
  requestCounter w' = requestCounter w
  /\ responseValid w' = responseValid w
  /\ responseErrors w' = responseErrors w
  /\ logged w' = logged w.
Proof.
  destruct (processRequest_before_read r p maxSize report w)
    as [(code & err & -> & _)
       |[(reader & buf & e & _ & _ & _ & ->)
        |(reader & buf & Hm & Hd & Hr)]]; [cbn; auto | cbn; auto |].
  destruct (processRequest_after_read r p maxSize report w reader buf Hm Hd Hr)
    as (code & err & rest & -> & _). cbn. auto.
Qed.

(** A processor route, step by step: the request is logged and counted;
    without authorization it is answered 401 at once, otherwise the outcome
    of [processRequest] is sent. *)
Lemma route_run (p : Processor) (config : Config) (report : reporter)
    (r : http.Request) (w : World) :
  let w1 :=
    {| requestCounter := requestCounter w + 1; responseValid := responseValid w;
       responseErrors := responseErrors w;
       logged := logged w ++
         [ {| lvl := LevelDebug; selector := "handler";
              format := "Request: URI=%s, method=%s, content-length=%d";
              args := [ArgString (http.RequestURI r); ArgString (http.Method r);
                       ArgInt (http.ContentLength r)] |} ];
       calls := calls w |} in
  logHandler (authHandler (SecretToken config) (appHandler p config report))
    http.newResponseWriter r w
  = if isAuthorized r (SecretToken config)
    then
      sendStatus http.newResponseWriter r
        (fst (fst (processRequest r p (MaxUnzippedSize config) report w1)))
        (snd (fst (processRequest r p (MaxUnzippedSize config) report w1)))
        (snd (processRequest r p (MaxUnzippedSize config) report w1))
    else sendStatus http.newResponseWriter r 401 (Some errInvalidToken) w1.
Proof.
  unfold logHandler, authHandler, appHandler. run.
  destruct (isAuthorized r (SecretToken config)); cbn [negb]; [|reflexivity].
  cbv beta.
  match goal with |- context [processRequest ?a ?b ?c ?d ?e] =>
    destruct (processRequest a b c d e) as [[code err] w2] end.
  reflexivity.
Qed.

(** X2: with a secret configured, a request that is not authorized is
    answered 401 with "invalid token" as soon as it is counted.  The wrapped
    handler does not run: the response and the state are the same whatever
    handler is wrapped, and no processor or reporter is called.  The request
    counts as one request and one error. *)
Theorem route_unauthorized (p : Processor) (config : Config)
    (report : reporter) (r : http.Request) (w : World) :
  isAuthorized r (SecretToken config) = false ->
  let route :=
    logHandler (authHandler (SecretToken config) (appHandler p config report)) in
  let rw := fst (route http.newResponseWriter r w) in
  let w' := snd (route http.newResponseWriter r w) in
  http.status rw = Some 401
  /\ (acceptsJSON r = false ->
      http.rw_body rw = list_byte_of_string "invalid token")
  /\ (forall h : Handler,
        logHandler (authHandler (SecretToken config) h) http.newResponseWriter r w
        = route http.newResponseWriter r w)
  /\ calls w' = calls w
  /\ requestCounter w' = requestCounter w + 1
  /\ responseErrors w' = responseErrors w + 1
  /\ responseValid w' = responseValid w.
Proof.
  intros Hauth route rw w'. subst rw w' route.
  assert (Hany : forall h : Handler,
            logHandler (authHandler (SecretToken config) h)
              http.newResponseWriter r w
            = logHandler (authHandler (SecretToken config)
                            (appHandler p config report))
                http.newResponseWriter r w).
  { intros h. unfold logHandler, authHandler. run. now rewrite Hauth. }
  rewrite route_run, Hauth.
  match goal with |- context [sendStatus _ _ _ _ ?x] => set (w1 := x) end.
  destruct (sendStatus_response r 401 (Some errInvalidToken) w1)
    as (Hst & _ & Hbody).
  destruct (sendStatus_World http.newResponseWriter r 401 (Some errInvalidToken) w1)
    as (Hreq & Hcalls & Hval & Herr).
  split; [exact Hst|]. split.
  { intros Hacc. rewrite Hbody, Hacc. reflexivity. }
  split.
  { intros h. rewrite Hany, route_run, Hauth. reflexivity. }
  assert (H1 : requestCounter w1 = requestCounter w + 1
               /\ responseValid w1 = responseValid w
               /\ responseErrors w1 = responseErrors w
               /\ calls w1 = calls w) by (now subst w1).
  split; [intuition congruence|]. split; [lia|]. split; lia.
Qed.

(** X10: every request on a processor route is counted once as a request
    and once as a response: as valid, with status 202 and an empty body, or
    as an error, with another status. *)
Theorem route_accounting (p : Processor) (config : Config)
    (report : reporter) (r : http.Request) (w : World) :
  let route :=
    logHandler (authHandler (SecretToken config) (appHandler p config report)) in
  let rw := fst (route http.newResponseWriter r w) in
  let w' := snd (route http.newResponseWriter r w) in
  requestCounter w' = requestCounter w + 1
  /\ ((http.status rw = Some 202 /\ http.rw_body rw = []
       /\ responseValid w' = responseValid w + 1
       /\ responseErrors w' = responseErrors w)
      \/ (http.status rw <> Some 202
          /\ responseValid w' = responseValid w
          /\ responseErrors w' = responseErrors w + 1)).
Proof.
  intros route rw w'. subst rw w' route. rewrite route_run.
  match goal with |- context [sendStatus _ _ 401 _ ?x] => set (w1 := x) end.
  destruct (isAuthorized r (SecretToken config)).
  - pose proof (processRequest_World r p (MaxUnzippedSize config) report w1)
      as (Hreq & Hval & Herr & _).
    pose proof (processRequest_cases r p (MaxUnzippedSize config) report w1) as Hc.
    destruct (processRequest r p (MaxUnzippedSize config) report w1)
      as [[code err] w2].
    cbn [fst snd] in *.
    destruct (sendStatus_response r code err w2) as (Hst & _ & Hbody).
    destruct (sendStatus_World http.newResponseWriter r code err w2)
      as (Hreq' & _ & Hval' & Herr').
    subst w1. cbn in Hreq, Hval, Herr.
    split; [lia|].
    destruct Hc as [[= -> ->]|(c & e & [= -> ->] & Hin)].
    + left. split; [exact Hst|]. split; [exact Hbody|]. split; lia.
    + right. split; [|split; lia].
      rewrite Hst. intros [= ->]. simpl in Hin.
      repeat destruct Hin as [Hin|Hin]; try discriminate Hin. destruct Hin.
  - destruct (sendStatus_response r 401 (Some errInvalidToken) w1) as (Hst & _).
    destruct (sendStatus_World http.newResponseWriter r 401
                (Some errInvalidToken) w1) as (Hreq' & _ & Hval' & Herr').
    assert (H1 : requestCounter w1 = requestCounter w + 1
                 /\ responseValid w1 = responseValid w
                 /\ responseErrors w1 = responseErrors w) by (now subst w1).
    split; [lia|]. right. rewrite Hst. split; [discriminate | split; lia].
Qed.


(** ** The muxer as a whole *)

(** What a successful run of the registration loop leaves: no processor path
    is empty, every path of [routes] maps to its wrapped handler and the
    other paths are as before; one line is logged per path and nothing else
    changes. *)
Lemma addProcessors_spec (config : Config) (report : reporter)
    (routes : list (string * Processor)) (mux mux' : gmap string Handler)
    (w w' : World) :
  NoDup routes.*1 ->
  addProcessors config report routes mux w = (Some mux', w') ->
  (forall path, path ∈ routes.*1 -> path <> "")
  /\ (forall k,
        mux' !! k
        = match (list_to_map routes : gmap string Processor) !! k with
          | Some p =>
              Some (logHandler (authHandler (SecretToken config)
                                  (appHandler p config report)))
          | None => mux !! k
          end)
  /\ logged w'
     = logged w ++
       ((fun path => {| lvl := LevelInfo; selector := "";
                        format := "Path %s added to request handler";
                        args := [ArgString path] |}) <$> routes.*1)
  /\ requestCounter w' = requestCounter w
  /\ responseValid w' = responseValid w
  /\ responseErrors w' = responseErrors w
  /\ calls w' = calls w.
Proof.
  revert mux w. induction routes as [|[path p] routes IH]; intros mux w Hnd.
  - intros [= <- <-]. cbn. rewrite app_nil_r.
    split; [intros path Hin; inversion Hin|].
    split; [intros k; now rewrite lookup_empty|].
    auto.
  - cbn [fmap list_fmap fst] in Hnd. apply NoDup_cons in Hnd as [Hnotin Hnd].
    cbn [addProcessors]. run. unfold Handle.
    destruct (String.eqb_spec path "") as [->|Hne]; [discriminate|].
    destruct (mux !! path) eqn:Hfree; [discriminate|].
    intros Hrun. apply (IH _ _ Hnd) in Hrun
      as (Hpaths & Hlookup & Hlog & Hreq & Hval & Herr & Hcalls).
    cbn [logged requestCounter responseValid responseErrors calls] in *.
    split.
    { intros path' Hin. cbn [fmap list_fmap fst] in Hin.
      apply elem_of_cons in Hin as [->|Hin]; [exact Hne | now apply Hpaths]. }
    split.
    { intros k. rewrite Hlookup. cbn [list_to_map foldr uncurry fst snd].
      destruct (decide (k = path)) as [->|Hk].
      - rewrite (not_elem_of_list_to_map_1 _ _ Hnotin), !lookup_insert_eq.
        reflexivity.
      - rewrite !lookup_insert_ne by congruence. reflexivity. }
    split; [rewrite Hlog, <- app_assoc; reflexivity | auto].
Qed.


Lemma newMuxer_inv (Processors : gmap string Processor) (config : Config)
    (report : reporter) (w0 w1 : World) (mux : gmap string Handler) :
  newMuxer Processors config report w0 = (Some mux, w1) ->
  exists mux',
    addProcessors config report (map_to_list Processors) ∅ w0 = (Some mux', w1)
    /\ mux' !! "/healthcheck" = None
    /\ mux = <["/healthcheck" := healthcheck]> mux'.
Proof.
  unfold newMuxer, mbind, M_bind, mret, M_ret.
  destruct (addProcessors config report (map_to_list Processors) ∅ w0)
    as [[mux'|] w']; [|discriminate].
  unfold Handle. change (String.eqb "/healthcheck" "") with false. cbv iota.
  destruct (mux' !! "/healthcheck") eqn:Hhc; [discriminate|].
  intros [= <- <-]. exists mux'. auto.
Qed.

Lemma route_lookup (Processors : gmap string Processor) (config : Config)
    (report : reporter) (w0 w1 : World) (mux' : gmap string Handler) :
  addProcessors config report (map_to_list Processors) ∅ w0 = (Some mux', w1) ->
  forall k,
    mux' !! k
    = (fun p => logHandler (authHandler (SecretToken config)
                              (appHandler p config report)))
      <$> Processors !! k.
Proof.
  intros Hrun k.
  apply addProcessors_spec in Hrun as (_ & Hlookup & _);
    [|apply NoDup_fst_map_to_list].
  rewrite Hlookup, list_to_map_to_list.
  destruct (Processors !! k); [reflexivity | apply lookup_empty].
Qed.

(** X12: when [newMuxer] returns, the muxer has the health check under
    "/healthcheck" and, under each processor path, the handler of that
    processor wrapped in the authentication and then the logging
    middleware, and no other route.  Building it logs one line per processor
    path and leaves the counters and the trace of calls untouched. *)
Theorem newMuxer_routes (Processors : gmap string Processor) (config : Config)
    (report : reporter) (w0 w1 : World) (mux : gmap string Handler) :
  newMuxer Processors config report w0 = (Some mux, w1) ->
  mux = <["/healthcheck" := healthcheck]>
          ((fun p => logHandler (authHandler (SecretToken config)
                                   (appHandler p config report)))
           <$> Processors)
  /\ (exists added,
        logged w1 = logged w0 ++ added
        /\ length added = size Processors
        /\ forall line, line ∈ added <->
             exists path,
               is_Some (Processors !! path)
               /\ line = {| lvl := LevelInfo; selector := "";
                            format := "Path %s added to request handler";
                            args := [ArgString path] |})
  /\ requestCounter w1 = requestCounter w0
  /\ responseValid w1 = responseValid w0
  /\ responseErrors w1 = responseErrors w0
  /\ calls w1 = calls w0.
Proof.
  intros Hmux. apply newMuxer_inv in Hmux as (mux' & Hrun & Hhc & ->).
  pose proof (route_lookup _ _ _ _ _ _ Hrun) as Hlookup.
  apply addProcessors_spec in Hrun as (_ & _ & Hlog & Hrest);
    [|apply NoDup_fst_map_to_list].
  split.
  { f_equal. apply map_eq. intros k. now rewrite Hlookup, lookup_fmap. }
  split; [|exact Hrest].
  eexists. split; [exact Hlog|]. split.
  - now rewrite !length_fmap, length_map_to_list.
  - intros line. rewrite list_elem_of_fmap. split.
    + intros (path & -> & Hin). exists path. split; [|reflexivity].
      apply list_elem_of_fmap in Hin as ([k v] & -> & Hin).
      apply elem_of_map_to_list in Hin. eauto.
    + intros (path & [v Hv] & ->). exists path. split; [reflexivity|].
      apply list_elem_of_fmap. exists (path, v).
      split; [reflexivity | now apply elem_of_map_to_list].
Qed.

(** X13: [newMuxer] panics exactly when a processor is registered under the
    empty path or under "/healthcheck". *)
Theorem newMuxer_panics_iff (Processors : gmap string Processor)
    (config : Config) (report : reporter) (w : World) :
  fst (newMuxer Processors config report w) = None
  <-> is_Some (Processors !! "") \/ is_Some (Processors !! "/healthcheck").
Proof.
  split.
  - intros Hnone.
    destruct (Processors !! "") as [p|] eqn:Hempty; [left; eauto|].
    destruct (Processors !! "/healthcheck") as [p|] eqn:Hhc; [right; eauto|].
    destruct (newMuxer_succeeds Processors config report w Hempty Hhc)
      as (mux & w1 & Heq).
    rewrite Heq in Hnone. discriminate Hnone.
  - intros Hbad.
    destruct (newMuxer Processors config report w) as [[mux|] w1] eqn:Hmux;
      [exfalso | reflexivity].
    apply newMuxer_inv in Hmux as (mux' & Hrun & Hhc & _).
    pose proof (route_lookup _ _ _ _ _ _ Hrun) as Hlookup.
    apply addProcessors_spec in Hrun as (Hpaths & _);
      [|apply NoDup_fst_map_to_list].
    destruct Hbad as [[p Hp]|[p Hp]].
    + apply (Hpaths ""); [|reflexivity].
      apply list_elem_of_fmap. exists ("", p).
      split; [reflexivity | now apply elem_of_map_to_list].
    + rewrite Hlookup, Hp in Hhc. discriminate Hhc.
Qed.

(** ** Accounting over any run of the server *)

Lemma route_counters (p : Processor) (config : Config) (report : reporter)
    (r : http.Request) (w : World) :
  let w' :=
    snd (logHandler (authHandler (SecretToken config) (appHandler p config report))
           http.newResponseWriter r w) in
  requestCounter w' = requestCounter w + 1
  /\ ((responseValid w' = responseValid w + 1
       /\ responseErrors w' = responseErrors w)
      \/ (responseValid w' = responseValid w
          /\ responseErrors w' = responseErrors w + 1)).
Proof.
  intros w'. subst w'. rewrite route_run.
  match goal with |- context [sendStatus _ _ 401 _ ?x] => set (w1 := x) end.
  assert (H1 : requestCounter w1 = requestCounter w + 1
               /\ responseValid w1 = responseValid w
               /\ responseErrors w1 = responseErrors w) by (now subst w1).
  destruct (isAuthorized r (SecretToken config)).
  - pose proof (processRequest_World r p (MaxUnzippedSize config) report w1)
      as (Hreq & Hval & Herr & _).
    destruct (processRequest r p (MaxUnzippedSize config) report w1)
      as [[code err] w2].
    cbn [fst snd] in *.
    destruct (sendStatus_World http.newResponseWriter r code err w2)
      as (Hreq' & _ & Hval' & Herr').
    destruct err; (split; [lia|]); [right | left]; lia.
  - destruct (sendStatus_World http.newResponseWriter r 401
                (Some errInvalidToken) w1) as (Hreq' & _ & Hval' & Herr').
    split; [lia|]. right. lia.
Qed.

(** Serving requests one after the other adds up what each one does. *)
Lemma serveAll_counters (h : Handler) :
  (forall r w,
     requestCounter (snd (h http.newResponseWriter r w)) = requestCounter w + 1
     /\ ((responseValid (snd (h http.newResponseWriter r w)) = responseValid w + 1
          /\ responseErrors (snd (h http.newResponseWriter r w)) = responseErrors w)
         \/ (responseValid (snd (h http.newResponseWriter r w)) = responseValid w
             /\ responseErrors (snd (h http.newResponseWriter r w))
                = responseErrors w + 1))) ->
  forall rs w,
    length (fst (serveAll h rs w)) = length rs
    /\ requestCounter (snd (serveAll h rs w))
       = requestCounter w + Z.of_nat (length rs)
    /\ responseValid (snd (serveAll h rs w))
       + responseErrors (snd (serveAll h rs w))
       = responseValid w + responseErrors w + Z.of_nat (length rs)
    /\ responseValid w <= responseValid (snd (serveAll h rs w))
    /\ responseErrors w <= responseErrors (snd (serveAll h rs w)).
Proof.
  intros Hstep rs. induction rs as [|r rs IH]; intros w.
  - cbn. repeat split; lia.
  - cbn [serveAll]. unfold mbind, M_bind, mret, M_ret.
    specialize (Hstep r w).
    destruct (h http.newResponseWriter r w) as [rw w1]. cbn [fst snd] in Hstep.
    specialize (IH w1). destruct (serveAll h rs w1) as [rws w2].
    cbn [fst snd length] in *. lia.
Qed.

(** X11: in the muxer that [newMuxer] builds, every route keeps the books:
    after serving any sequence of requests the request counter has grown by
    the number of requests, and so has the sum of the valid-response and
    error-response counters, neither of which ever decreases. *)
Theorem muxer_accounting (Processors : gmap string Processor) (config : Config)
    (report : reporter) (w0 w1 : World) (mux : gmap string Handler)
    (path : string) (h : Handler) :
  newMuxer Processors config report w0 = (Some mux, w1) ->
  mux !! path = Some h ->
  forall (rs : list http.Request) (w : World),
    let w' := snd (serveAll h rs w) in
    length (fst (serveAll h rs w)) = length rs
    /\ requestCounter w' = requestCounter w + Z.of_nat (length rs)
    /\ responseValid w' + responseErrors w'
       = responseValid w + responseErrors w + Z.of_nat (length rs)
    /\ responseValid w <= responseValid w'
    /\ responseErrors w <= responseErrors w'.
Proof.
  intros Hmux Hpath. apply newMuxer_inv in Hmux as (mux' & Hrun & _ & ->).
  apply serveAll_counters.
  destruct (decide (path = "/healthcheck")) as [->|Hne].
  - rewrite lookup_insert_eq in Hpath. injection Hpath as <-.
    intros r w. rewrite healthcheck_run. cbn. split; [reflexivity|]. left. auto.
  - rewrite lookup_insert_ne in Hpath by congruence.
    rewrite (route_lookup _ _ _ _ _ _ Hrun) in Hpath.
    destruct (Processors !! path) as [p|]; [|discriminate].
    injection Hpath as <-. intros r w. apply route_counters.
Qed.


(** ** Responses for a request without [Accept] *)

(** X15: a request with no [Accept] header (or an empty one) does not accept
    JSON: on every processor route its response is "text/plain;
    charset=utf-8", and a failure carries the bare message of the error,
    "invalid token" when the request is not authorized. *)
Theorem route_no_Accept (p : Processor) (config : Config)
    (report : reporter) (r : http.Request) (w : World) :
  Header_Get (http.Header r) "Accept" = "" ->
  let route :=
    logHandler (authHandler (SecretToken config) (appHandler p config report)) in
  let rw := fst (route http.newResponseWriter r w) in
  acceptsJSON r = false
  /\ http.sent_Header rw "Content-Type" = "text/plain; charset=utf-8"
  /\ (isAuthorized r (SecretToken config) = false ->
      http.rw_body rw = list_byte_of_string "invalid token")
  /\ (isAuthorized r (SecretToken config) = true ->
      forall e,
        snd (fst (processRequest r p (MaxUnzippedSize config) report w)) = Some e ->
        http.rw_body rw = list_byte_of_string (Error e)).
Proof.
  intros Hacc route rw. subst rw route.
  assert (Hjson : acceptsJSON r = false) by (unfold acceptsJSON; now rewrite Hacc).
  split; [exact Hjson|]. rewrite route_run.
  match goal with |- context [sendStatus _ _ 401 _ ?x] => set (w1 := x) end.
  destruct (isAuthorized r (SecretToken config)).
  - pose proof (processRequest_cases r p (MaxUnzippedSize config) report w1) as Hc.
    rewrite (processRequest_fst_World r p _ report w w1).
    destruct (processRequest r p (MaxUnzippedSize config) report w1)
      as [[code err] w2].
    cbn [fst snd] in *.
    destruct (sendStatus_response r code err w2) as (_ & Hct & Hbody).
    rewrite Hjson in Hct, Hbody.
    split; [exact Hct|]. split; [discriminate|].
    intros _ e ->. rewrite Hbody, bodyAllowed_codes; [reflexivity|].
    destruct Hc as [[=]|(c & e' & [= -> _] & Hin)]. simpl in *. tauto.
  - destruct (sendStatus_response r 401 (Some errInvalidToken) w1)
      as (_ & Hct & Hbody).
    rewrite Hjson in Hct, Hbody.
    split; [exact Hct|]. split; [intros _; exact Hbody | discriminate].
Qed.

End Beater.

(** * The claims at concrete inputs *)

(** ** The library functions on small inputs *)

Example Split_three_parts :
  strings.Split "Bearer a b" " " = ["Bearer"; "a"; "b"].
Proof. reflexivity. Qed.

Example Split_empty : strings.Split "" " " = [""].
Proof. reflexivity. Qed.

Example Split_leading_trailing : strings.Split " a  " " " = [""; "a"; ""; ""].
Proof. reflexivity. Qed.

Example Contains_any_type :
  strings.Contains "text/html, */*;q=0.8" "*/*" = true
  /\ strings.Contains "text/html" "*/*" = false.
Proof. split; reflexivity. Qed.

Example ConstantTimeCompare_bytes :
  subtle.ConstantTimeCompare (list_byte_of_string "abc") (list_byte_of_string "abc") = 1
  /\ subtle.ConstantTimeCompare (list_byte_of_string "abc") (list_byte_of_string "abd") = 0
  /\ subtle.ConstantTimeCompare (list_byte_of_string "abc") (list_byte_of_string "ab") = 0.
Proof. repeat split; reflexivity. Qed.

(** A stream of five bytes whose last three come with an error: under a
    limit of three the error is never met, under a limit of ten it is. *)
Example ReadAll_limit_before_error :
  let r := [(list_byte_of_string "ab", None);
            (list_byte_of_string "cde", Some (errors_New "unexpected EOF"))] in
  ioutil.ReadAll noSlack (io.LimitReader r 3) = (list_byte_of_string "abc", None)
  /\ ioutil.ReadAll noSlack (io.LimitReader r 10)
     = (list_byte_of_string "abcde", Some (errors_New "unexpected EOF"))
  /\ ioutil.ReadAll noSlack (io.LimitReader r (-1)) = ([], None).
Proof. repeat split; vm_compute; reflexivity. Qed.

(** ** The pipeline on the sample requests *)

(** A valid POST is accepted with 202 and an empty body. *)
Example route_accepts_valid_POST :
  let rw :=
    fst (logHandler (authHandler plain_Marshal (SecretToken openConfig)
           (appHandler (Event := unit)
              plain_NewReader plain_NewReader plain_Marshal noSlack
              acceptAll {| SecretToken := EmptyString; MaxUnzippedSize := 1024 |}
              okReport))
           http.newResponseWriter postRequest World0) in
  http.status rw = Some 202 /\ http.rw_body rw = [].
Proof. split; vm_compute; reflexivity. Qed.

(** With a secret configured, a request without credentials is answered 401
    before any collaborator is called. *)
Example route_refuses_missing_token :
  let '(rw, w) :=
    logHandler (authHandler plain_Marshal (SecretToken sampleConfig)
      (appHandler (Event := unit)
         plain_NewReader plain_NewReader plain_Marshal noSlack
         acceptAll sampleConfig okReport))
      http.newResponseWriter postRequest World0 in
  http.status rw = Some 401
  /\ http.rw_body rw = list_byte_of_string "invalid token"
  /\ calls w = []
  /\ requestCounter w = 1 /\ responseErrors w = 1 /\ responseValid w = 0.
Proof. vm_compute. repeat split; reflexivity. Qed.

(** A failure of the reporter is answered 503. *)
Example route_reporter_failure :
  fst (processRequest (Event := unit) plain_NewReader plain_NewReader noSlack
         postRequest acceptAll 1024
         (fun _ => Some (errors_New "queue is full")) World0)
  = (503, Some (errors_New "queue is full")).
Proof. vm_compute. reflexivity. Qed.

(** ** The claims *)

(** C1 as stated fails: a POST of the five bytes "abcde" under a maximum of
    three bytes is not answered 500; [Validate] is called, with "abc", and
    the request is accepted. *)
Lemma processRequest_oversize_validates :
  3 < Z.of_nat (length (io.contents sampleBody))
  /\ fst (processRequest (Event := unit) plain_NewReader plain_NewReader noSlack
            postRequest acceptAll 3 okReport World0) = (202, None)
  /\ calls (snd (processRequest (Event := unit) plain_NewReader plain_NewReader noSlack
                   postRequest acceptAll 3 okReport World0))
     = [call_Validate (list_byte_of_string "abc");
        call_Transform (list_byte_of_string "abc");
        call_report [];
        call_reader_Close].
Proof. repeat split; vm_compute; reflexivity. Qed.

(** [processRequest_oversize_no_error] at that request. *)
Lemma processRequest_oversize_no_error_witness :
  fst (fst (processRequest (Event := unit) plain_NewReader plain_NewReader noSlack
              postRequest acceptAll 3 okReport World0)) <> 500
  /\ exists added,
       calls (snd (processRequest (Event := unit) plain_NewReader plain_NewReader noSlack
                     postRequest acceptAll 3 okReport World0))
       = calls World0 ++ added
       /\ forall buf, In (call_Validate buf) added ->
            buf = take (Z.to_nat 3) (io.contents sampleBody)
            /\ (length buf < length (io.contents sampleBody))%nat.
Proof.
  apply (processRequest_oversize_no_error (Event := unit) plain_NewReader plain_NewReader noSlack
           postRequest acceptAll 3 okReport World0 sampleBody).
  - lia.
  - reflexivity.
  - reflexivity.
Defined.

(** [processRequest_oversize_truncates] at that request: the read gives
    "abc" and [Validate] is called with it. *)
Lemma processRequest_oversize_truncates_witness :
  ioutil.ReadAll noSlack (io.LimitReader sampleBody 3) = (list_byte_of_string "abc", None)
  /\ exists rest,
       calls (snd (processRequest (Event := unit) plain_NewReader plain_NewReader noSlack
                     postRequest acceptAll 3 okReport World0))
       = calls World0 ++ call_Validate (list_byte_of_string "abc") :: rest.
Proof.
  destruct (processRequest_oversize_truncates (Event := unit) plain_NewReader plain_NewReader noSlack
              postRequest acceptAll 3 okReport World0 sampleBody)
    as (Hread & _ & Hcalls & _).
  - reflexivity.
  - reflexivity.
  - reflexivity.
  - split; [exact Hread | exact Hcalls].
Defined.

(** C3 as stated fails for a secret with a space in it: the header
    "Bearer a b" has three parts and is refused although the secret is
    "a b". *)
Lemma isAuthorized_secret_with_space :
  isAuthorized (bearerRequest "a b") "a b" = false.
Proof. vm_compute. reflexivity. Qed.

(** [isAuthorized_spec] with the secret "secret": the right token, another
    token, and no header at all. *)
Lemma isAuthorized_spec_witness :
  isAuthorized (bearerRequest "secret") "secret" = true
  /\ isAuthorized (bearerRequest "other") "secret" = false
  /\ isAuthorized getRequest "secret" = false.
Proof.
  pose proof (isAuthorized_spec (bearerRequest "secret") "secret") as [_ H1].
  pose proof (isAuthorized_spec (bearerRequest "other") "secret") as [_ H2].
  pose proof (isAuthorized_spec getRequest "secret") as [_ H3].
  specialize (H1 ltac:(discriminate)). specialize (H2 ltac:(discriminate)).
  specialize (H3 ltac:(discriminate)).
  cbv zeta in H1, H2, H3.
  destruct H1 as (H1 & _). destruct H2 as (_ & H2 & _).
  destruct H3 as (_ & _ & _ & _ & _ & H3).
  split; [|split].
  - apply H1; reflexivity.
  - apply (H2 "other"); [discriminate | reflexivity].
  - apply H3. reflexivity.
Defined.

(** [decodeData_spec] at a gzip request, a request with no encoding, and a
    request with no content type. *)
Lemma decodeData_spec_witness :
  decodeData plain_NewReader plain_NewReader gzipRequest = inl sampleBody
  /\ decodeData plain_NewReader plain_NewReader postRequest = inl sampleBody
  /\ decodeData plain_NewReader plain_NewReader getRequest
     = inr (errors_New "invalid content type: ").
Proof.
  pose proof (decodeData_spec plain_NewReader plain_NewReader gzipRequest) as [_ H1].
  pose proof (decodeData_spec plain_NewReader plain_NewReader postRequest) as [_ H2].
  pose proof (decodeData_spec plain_NewReader plain_NewReader getRequest) as [H3 _].
  split; [|split].
  - destruct (H1 eq_refl sampleBody eq_refl) as (Hgz & _).
    exact (Hgz eq_refl).
  - destruct (H2 eq_refl sampleBody eq_refl) as (_ & _ & _ & Habs).
    exact (Habs eq_refl).
  - apply H3. discriminate.
Defined.

(** [error_response_format] at a GET request that accepts JSON: the answer
    is 405 with a JSON body. *)
Lemma error_response_format_witness :
  let rw :=
    fst (logHandler (authHandler plain_Marshal (SecretToken openConfig)
           (appHandler (Event := unit)
              plain_NewReader plain_NewReader plain_Marshal noSlack
              acceptAll openConfig okReport))
           http.newResponseWriter getRequest World0) in
  http.status rw = Some 405
  /\ http.sent_Header rw "Content-Type" = "application/json"
  /\ http.rw_body rw
     = list_byte_of_string
         ("{" +:+ quote +:+ "error" +:+ quote +:+ ":" +:+ quote
          +:+ "only POST requests are supported" +:+ quote +:+ "}").
Proof.
  pose proof (error_response_format (Event := unit) plain_NewReader plain_NewReader plain_Marshal noSlack
                acceptAll openConfig okReport getRequest World0) as H.
  cbv zeta in H. destruct H as (_ & Hst & Hjson & _).
  destruct (Hjson eq_refl) as [Hct Hbody].
  split; [exact Hst|]. split; [exact Hct|].
  exact (Hbody errPOSTRequestOnly _ eq_refl eq_refl).
Defined.

(** C6 as stated fails on the message: the error of a GET request reads
    "only POST requests are supported", not "method not allowed". *)
Lemma processRequest_GET_message :
  fst (processRequest (Event := unit) plain_NewReader plain_NewReader noSlack
         getRequest acceptAll 3 okReport World0)
  = (405, Some errPOSTRequestOnly)
  /\ Error errPOSTRequestOnly <> "method not allowed".
Proof. split; [reflexivity | discriminate]. Qed.

(** [processRequest_not_POST] at that GET request. *)
Lemma processRequest_not_POST_witness :
  processRequest (Event := unit) plain_NewReader plain_NewReader noSlack
    getRequest acceptAll 3 okReport World0
  = ((405, Some errPOSTRequestOnly), World0)
  /\ Error errPOSTRequestOnly = "only POST requests are supported".
Proof.
  apply (processRequest_not_POST (Event := unit) plain_NewReader plain_NewReader noSlack
           getRequest acceptAll 3 okReport World0).
  discriminate.
Defined.

(** [processRequest_Validate_error] at the sample POST with a processor
    that rejects every payload. *)
Lemma processRequest_Validate_error_witness :
  fst (processRequest (Event := unit) plain_NewReader plain_NewReader noSlack
         postRequest rejectAll 10 okReport World0)
  = (400, Some (errors_New "invalid payload"))
  /\ calls (snd (processRequest (Event := unit) plain_NewReader plain_NewReader noSlack
                   postRequest rejectAll 10 okReport World0))
     = calls World0 ++ [call_Validate (list_byte_of_string "abcde");
                        call_reader_Close].
Proof.
  apply (processRequest_Validate_error (Event := unit) plain_NewReader plain_NewReader noSlack
           postRequest rejectAll 10 okReport World0 sampleBody).
  - reflexivity.
  - reflexivity.
  - reflexivity.
  - reflexivity.
Defined.

(** A graceful shutdown that succeeds: the only connection of the server is
    idle at the third poll, one second after [stop] was called; nothing is
    closed by force and nothing is logged. *)
Example stop_quiet :
  let '(server', elapsed, w') :=
    stop quietServer 5000000000 (World0 (Event := unit)) in
  elapsed = 1000000000
  /\ http.activeConn server' = []
  /\ http.listeners server' = []
  /\ calls w' = [call_Shutdown 5000000000]
  /\ logged w' = [].
Proof. vm_compute. repeat split; reflexivity. Qed.

(** C8 as stated fails on "logs both errors": a server with a busy
    connection and a listener whose close fails is stopped with a timeout of
    five seconds.  The shutdown times out and the connections are closed by
    force, but the log gets one error, that of the timeout.  The forced
    close answers no error, and the failure of the listener's close is
    neither logged nor handed to anyone. *)
Lemma stop_logs_one_error :
  let timeout := 5000000000 in
  let sh := http.Shutdown brokenServer (http.context_WithTimeout timeout) in
  let '(server', elapsed, w') :=
    stop brokenServer timeout (World0 (Event := unit)) in
  http.first_error (http.listeners brokenServer)
  = Some (errors_New "close tcp 0.0.0.0:8200: bad file descriptor")
  /\ fst (fst sh) = Some http.context_DeadlineExceeded
  /\ fst (http.Close (snd sh)) = None
  /\ elapsed = timeout
  /\ http.activeConn server' = []
  /\ calls w' = [call_Shutdown timeout; call_Close]
  /\ logged w'
     = [{| lvl := LevelErr; selector := "";
           format := "context deadline exceeded"; args := [] |}].
Proof. vm_compute. repeat split; reflexivity. Qed.

(** [healthcheck_spec] for a muxer with one processor route and a secret
    token configured: two requests without credentials are both answered
    200. *)
Lemma healthcheck_spec_witness :
  match newMuxer (Event := unit) plain_NewReader plain_NewReader plain_Marshal noSlack
          {[ "/v1/errors" := acceptAll ]} sampleConfig okReport World0 with
  | (Some mux, _) =>
      exists h,
        mux !! "/healthcheck" = Some h
        /\ let '(rws, w') := serveAll h [getRequest; getRequest] World0 in
           length rws = 2%nat
           /\ Forall (fun rw => http.status rw = Some 200) rws
           /\ requestCounter w' = 2
           /\ responseValid w' = 2
           /\ responseErrors w' = 0
  | (None, _) => False
  end.
Proof.
  destruct (newMuxer (Event := unit) plain_NewReader plain_NewReader plain_Marshal noSlack
              {[ "/v1/errors" := acceptAll ]} sampleConfig okReport World0)
    as [[mux|] w1] eqn:Hmux.
  - destruct (healthcheck_spec (Event := unit) plain_NewReader plain_NewReader plain_Marshal noSlack
                _ _ _ _ _ _ Hmux) as (h & Hh & Hserve).
    exists h. split; [exact Hh|].
    exact (Hserve [getRequest; getRequest] World0).
  - destruct (newMuxer_succeeds (Event := unit)
                plain_NewReader plain_NewReader plain_Marshal noSlack
                {[ "/v1/errors" := acceptAll ]} sampleConfig okReport World0)
      as (mux & w2 & Heq); [reflexivity | reflexivity |].
    rewrite Heq in Hmux. discriminate Hmux.
Defined.

(** ** More of the pipeline, at concrete inputs *)

(** [route_unauthorized] at the sample POST, which has no credentials, with
    the secret "secret" configured. *)
Lemma route_unauthorized_witness :
  let route :=
    logHandler (authHandler plain_Marshal (SecretToken sampleConfig)
      (appHandler (Event := unit)
         plain_NewReader plain_NewReader plain_Marshal noSlack
         acceptAll sampleConfig okReport)) in
  let rw := fst (route http.newResponseWriter postRequest World0) in
  let w' := snd (route http.newResponseWriter postRequest World0) in
  http.status rw = Some 401
  /\ (acceptsJSON postRequest = false ->
      http.rw_body rw = list_byte_of_string "invalid token")
  /\ (forall h : Handler,
        logHandler (authHandler plain_Marshal (SecretToken sampleConfig) h)
          http.newResponseWriter postRequest World0
        = route http.newResponseWriter postRequest World0)
  /\ calls w' = calls (World0 (Event := unit))
  /\ requestCounter w' = requestCounter (World0 (Event := unit)) + 1
  /\ responseErrors w' = responseErrors (World0 (Event := unit)) + 1
  /\ responseValid w' = responseValid (World0 (Event := unit)).
Proof.
  apply (route_unauthorized (Event := unit)
           plain_NewReader plain_NewReader plain_Marshal noSlack
           acceptAll sampleConfig okReport postRequest World0).
  reflexivity.
Defined.

(** [processRequest_decode_error] at a POST of "text/plain". *)
Lemma processRequest_decode_error_witness :
  processRequest (Event := unit) plain_NewReader plain_NewReader noSlack
    textRequest acceptAll 3 okReport World0
  = ((400, Some (errors_New "Decoding error: invalid content type: text/plain")),
     World0).
Proof.
  destruct (processRequest_decode_error (Event := unit)
              plain_NewReader plain_NewReader noSlack
              textRequest acceptAll 3 okReport World0 eq_refl)
    as (_ & Hct & _).
  apply Hct. discriminate.
Defined.

(** [processRequest_within_limit] at the sample POST of five bytes under a
    maximum of exactly five. *)
Lemma processRequest_within_limit_witness :
  fst (fst (processRequest (Event := unit) plain_NewReader plain_NewReader noSlack
              postRequest acceptAll 5 okReport World0)) <> 500
  /\ exists rest,
       calls (snd (processRequest (Event := unit) plain_NewReader plain_NewReader
                     noSlack postRequest acceptAll 5 okReport World0))
       = calls World0 ++ call_Validate (io.contents sampleBody) :: rest.
Proof.
  apply (processRequest_within_limit (Event := unit)
           plain_NewReader plain_NewReader noSlack
           postRequest acceptAll 5 okReport World0 sampleBody).
  - reflexivity.
  - reflexivity.
  - cbn. lia.
  - reflexivity.
Defined.

(** [processRequest_broken_stream] at a body that breaks after two bytes. *)
Lemma processRequest_broken_stream_witness :
  fst (processRequest (Event := unit) plain_NewReader plain_NewReader noSlack
         brokenRequest acceptAll 10 okReport World0)
  = (500, Some (errors_New ("Data read error: "
                            +:+ Error (errors_New "unexpected EOF"))))
  /\ calls (snd (processRequest (Event := unit) plain_NewReader plain_NewReader
                   noSlack brokenRequest acceptAll 10 okReport World0))
     = calls World0 ++ [call_reader_Close].
Proof.
  apply (processRequest_broken_stream (Event := unit)
           plain_NewReader plain_NewReader noSlack
           brokenRequest acceptAll 10 okReport World0 brokenBody).
  - reflexivity.
  - reflexivity.
  - cbn. lia.
  - reflexivity.
Defined.

(** [newMuxer_routes] and [muxer_accounting] for a registry of one
    processor. *)
Lemma newMuxer_routes_witness :
  match newMuxer (Event := unit) plain_NewReader plain_NewReader plain_Marshal
          noSlack {[ "/v1/errors" := acceptAll ]} sampleConfig okReport World0 with
  | (Some mux, w1) =>
      mux = <["/healthcheck" := healthcheck]>
              ((fun p => logHandler (authHandler plain_Marshal
                                       (SecretToken sampleConfig)
                                       (appHandler plain_NewReader plain_NewReader
                                          plain_Marshal noSlack
                                          p sampleConfig okReport)))
               <$> {[ "/v1/errors" := acceptAll ]})
      /\ requestCounter w1 = 0
  | (None, _) => False
  end.
Proof.
  destruct (newMuxer (Event := unit) plain_NewReader plain_NewReader plain_Marshal
              noSlack {[ "/v1/errors" := acceptAll ]} sampleConfig okReport World0)
    as [[mux|] w1] eqn:Hmux.
  - destruct (newMuxer_routes (Event := unit)
                plain_NewReader plain_NewReader plain_Marshal noSlack
                _ _ _ _ _ _ Hmux) as (Hroutes & _ & Hreq & _).
    split; [exact Hroutes | exact Hreq].
  - destruct (newMuxer_succeeds (Event := unit)
                plain_NewReader plain_NewReader plain_Marshal noSlack
                {[ "/v1/errors" := acceptAll ]} sampleConfig okReport World0)
      as (mux & w2 & Heq); [reflexivity | reflexivity |].
    rewrite Heq in Hmux. discriminate Hmux.
Defined.

Lemma muxer_accounting_witness :
  match newMuxer (Event := unit) plain_NewReader plain_NewReader plain_Marshal
          noSlack {[ "/v1/errors" := acceptAll ]} sampleConfig okReport World0 with
  | (Some mux, _) =>
      exists h,
        mux !! "/v1/errors" = Some h
        /\ let w' := snd (serveAll h [postRequest; getRequest] World0) in
           requestCounter w' = 2
           /\ responseValid w' + responseErrors w' = 2
  | (None, _) => False
  end.
Proof.
  destruct (newMuxer (Event := unit) plain_NewReader plain_NewReader plain_Marshal
              noSlack {[ "/v1/errors" := acceptAll ]} sampleConfig okReport World0)
    as [[mux|] w1] eqn:Hmux.
  - pose proof (newMuxer_inv (Event := unit)
                  plain_NewReader plain_NewReader plain_Marshal noSlack
                  _ _ _ _ _ _ Hmux) as (mux' & Hrun & _ & Heq).
    pose proof (route_lookup (Event := unit)
                  plain_NewReader plain_NewReader plain_Marshal noSlack
                  _ _ _ _ _ _ Hrun "/v1/errors") as Hlookup.
    assert (Hh : mux !! "/v1/errors"
                 = Some (logHandler (authHandler plain_Marshal
                           (SecretToken sampleConfig)
                           (appHandler plain_NewReader plain_NewReader
                              plain_Marshal noSlack
                              acceptAll sampleConfig okReport)))).
    { rewrite Heq, lookup_insert_ne by discriminate. rewrite Hlookup.
      reflexivity. }
    eexists. split; [exact Hh|].
    destruct (muxer_accounting (Event := unit)
                plain_NewReader plain_NewReader plain_Marshal noSlack
                _ _ _ _ _ _ _ _ Hmux Hh [postRequest; getRequest] World0)
      as (_ & Hreq & Hsum & _).
    split; [exact Hreq | exact Hsum].
  - destruct (newMuxer_succeeds (Event := unit)
                plain_NewReader plain_NewReader plain_Marshal noSlack
                {[ "/v1/errors" := acceptAll ]} sampleConfig okReport World0)
      as (mux & w2 & Heq); [reflexivity | reflexivity |].
    rewrite Heq in Hmux. discriminate Hmux.
Defined.

(** [route_no_Accept] at the sample POST, which has no [Accept] header and
    no credentials. *)
Lemma route_no_Accept_witness :
  let rw :=
    fst (logHandler (authHandler plain_Marshal (SecretToken sampleConfig)
           (appHandler (Event := unit)
              plain_NewReader plain_NewReader plain_Marshal noSlack
              acceptAll sampleConfig okReport))
           http.newResponseWriter postRequest World0) in
  http.sent_Header rw "Content-Type" = "text/plain; charset=utf-8"
  /\ http.rw_body rw = list_byte_of_string "invalid token".
Proof.
  destruct (route_no_Accept (Event := unit)
              plain_NewReader plain_NewReader plain_Marshal noSlack
              acceptAll sampleConfig okReport postRequest World0 eq_refl)
    as (_ & Hct & Hbody & _).
  split; [exact Hct | exact (Hbody eq_refl)].
Defined.
